(** * A fixed-capacity ring buffer of bytes (ring_buffer.go)

    Shallow embedding of the [RingBuffer] type of package [ringbuffer] and of
    its methods, followed by the properties of the cursor arithmetic and of
    the wrap-around copies.

    Conventions of the embedding.
    - Go's [int] is the 64-bit signed integer: a [Z] on which every [+], [-]
      and [%] of the source is followed by the two's complement wrap-around
      ([GoInt.wrap]).
    - A [[]byte] is a [list byte]; [len] is its length as a [Z].  The storage
      comes from [make([]byte, size)], whose capacity is its length, and no
      method re-slices an argument beyond its length, so slice bounds are
      checked against [len].
    - A run-time panic (slice bounds out of range, index out of range,
      division by zero, [make] with a negative length) is the result [None].
      Memory is not bounded: an allocation fails on a negative length only.
    - Every method body runs under [r.mu]; a call is therefore one atomic
      step from a state to a state, and the mutex itself is not a field of
      the model. *)

From Stdlib Require Import ZArith List Lia Bool.
From Stdlib Require String.
From Stdlib Require Import Init.Byte.
Import ListNotations.
Local Open Scope Z_scope.

(** ** Go integers *)

Module GoInt.

Definition min_int : Z := -9223372036854775808.
Definition max_int : Z := 9223372036854775807.

(** Two's complement wrap-around of a 64-bit signed integer. *)
Definition wrap (z : Z) : Z :=
  (z + 9223372036854775808) mod 18446744073709551616 - 9223372036854775808.

Definition add (a b : Z) : Z := wrap (a + b).
Definition sub (a b : Z) : Z := wrap (a - b).

(** [a % b]: truncated remainder; panics on a zero divisor. *)
Definition rem (a b : Z) : option Z :=
  if b =? 0 then None else Some (wrap (Z.rem a b)).

End GoInt.

(** ** The panic monad *)

Definition bind {A B : Type} (m : option A) (k : A -> option B) : option B :=
  match m with
  | Some a => k a
  | None => None
  end.

Notation "x <- m ;; k" := (bind m (fun x => k))
  (at level 61, m at next level, right associativity).
Notation "' pat <- m ;; k" := (bind m (fun x => match x with pat => k end))
  (at level 61, pat pattern, m at next level, right associativity).

(** ** Byte slices *)

Definition byte : Type := Byte.byte.

Definition len (s : list byte) : Z := Z.of_nat (length s).

(** [make([]byte, n)] *)
Definition make (n : Z) : option (list byte) :=
  if n <? 0 then None else Some (repeat x00 (Z.to_nat n)).

(** [s[lo:hi]] *)
Definition slice (s : list byte) (lo hi : Z) : option (list byte) :=
  if (0 <=? lo) && (lo <=? hi) && (hi <=? len s)
  then Some (firstn (Z.to_nat (hi - lo)) (skipn (Z.to_nat lo) s))
  else None.

(** [copy(dst, src)]: the first [min(len(dst), len(src))] bytes of [dst] are
    overwritten; the result is [dst] after the call. *)
Definition copy (dst src : list byte) : list byte :=
  firstn (length dst) src ++ skipn (length src) dst.

(** [copy(dst[off:], src)]: [dst[off:]] shares its storage with [dst], so the
    bytes land in [dst] from offset [off] on. *)
Definition copy_at (dst : list byte) (off : Z) (src : list byte)
  : option (list byte) :=
  tl <- slice dst off (len dst) ;;
  Some (firstn (Z.to_nat off) dst ++ copy tl src).

(** [s[i]] *)
Definition index (s : list byte) (i : Z) : option byte :=
  if (0 <=? i) && (i <? len s) then nth_error s (Z.to_nat i) else None.

(** [s[i] = c] *)
Definition store (s : list byte) (i : Z) (c : byte) : option (list byte) :=
  if (0 <=? i) && (i <? len s)
  then Some (firstn (Z.to_nat i) s ++ c :: skipn (S (Z.to_nat i)) s)
  else None.

(** ** The buffer *)

Inductive error : Type :=
| ErrTooManyDataToWrite
| ErrIsFull
| ErrIsEmpty.

(** [type RingBuffer struct]; an [error] result is an [option error], [None]
    being [nil]. *)
Record RingBuffer : Type := mkRingBuffer {
  buf : list byte;
  size : Z;
  r : Z;        (* next position to read *)
  w : Z;        (* next position to write *)
  isFull : bool
}.

Definition with_buf (rb : RingBuffer) (b : list byte) : RingBuffer :=
  mkRingBuffer b (size rb) (r rb) (w rb) (isFull rb).
Definition with_r (rb : RingBuffer) (x : Z) : RingBuffer :=
  mkRingBuffer (buf rb) (size rb) x (w rb) (isFull rb).
Definition with_w (rb : RingBuffer) (x : Z) : RingBuffer :=
  mkRingBuffer (buf rb) (size rb) (r rb) x (isFull rb).
Definition with_isFull (rb : RingBuffer) (f : bool) : RingBuffer :=
  mkRingBuffer (buf rb) (size rb) (r rb) (w rb) f.

(** [func New(size int) *RingBuffer]: no check of [size]; the only failure is
    the panic of [make] on a negative length. *)
Definition New (sz : Z) : option RingBuffer :=
  b <- make sz ;;
  Some (mkRingBuffer b sz 0 0 false).

(** [func (r *RingBuffer) Read(p []byte) (n int, err error)].  The result
    holds the buffer and [p] after the call, then [n] and [err]. *)
Definition Read (rb : RingBuffer) (p : list byte)
  : option (RingBuffer * list byte * Z * option error) :=
  if len p =? 0 then Some (rb, p, 0, None)
  else if (w rb =? r rb) && negb (isFull rb) then Some (rb, p, 0, Some ErrIsEmpty)
  else if w rb >? r rb then
    let n := GoInt.sub (w rb) (r rb) in
    let n := if n >? len p then len p else n in
    src <- slice (buf rb) (r rb) (GoInt.add (r rb) n) ;;
    let p := copy p src in
    r' <- GoInt.rem (GoInt.add (r rb) n) (size rb) ;;
    Some (with_r rb r', p, n, None)
  else
    let n := GoInt.add (GoInt.sub (size rb) (r rb)) (w rb) in
    let n := if n >? len p then len p else n in
    p <- (if GoInt.add (r rb) n <=? size rb then
            src <- slice (buf rb) (r rb) (GoInt.add (r rb) n) ;;
            Some (copy p src)
          else
            let c1 := GoInt.sub (size rb) (r rb) in
            src <- slice (buf rb) (r rb) (size rb) ;;
            let p := copy p src in
            let c2 := GoInt.sub n c1 in
            src <- slice (buf rb) 0 c2 ;;
            copy_at p c1 src) ;;
    r' <- GoInt.rem (GoInt.add (r rb) n) (size rb) ;;
    Some (with_isFull (with_r rb r') false, p, n, None).

(** [func (r *RingBuffer) ReadByte() (b byte, err error)] *)
Definition ReadByte (rb : RingBuffer) : option (RingBuffer * byte * option error) :=
  if (w rb =? r rb) && negb (isFull rb) then Some (rb, x00, Some ErrIsEmpty)
  else
    b <- index (buf rb) (r rb) ;;
    let rb := with_r rb (GoInt.add (r rb) 1) in
    let rb := if r rb =? size rb then with_r rb 0 else rb in
    Some (with_isFull rb false, b, None).

(** [func (r *RingBuffer) Write(p []byte) (n int, err error)] *)
Definition Write (rb : RingBuffer) (p : list byte)
  : option (RingBuffer * Z * option error) :=
  if len p =? 0 then Some (rb, 0, None)
  else if isFull rb then Some (rb, 0, Some ErrIsFull)
  else
    let avail :=
      if w rb >=? r rb
      then GoInt.add (GoInt.sub (size rb) (w rb)) (r rb)
      else GoInt.sub (r rb) (w rb) in
    '(err, p) <- (if len p >? avail
                  then p' <- slice p 0 avail ;; Some (Some ErrTooManyDataToWrite, p')
                  else Some (None, p)) ;;
    let n := len p in
    rb <- (if w rb >=? r rb then
             let c1 := GoInt.sub (size rb) (w rb) in
             if c1 >=? n then
               b <- copy_at (buf rb) (w rb) p ;;
               Some (with_w (with_buf rb b) (GoInt.add (w rb) n))
             else
               p1 <- slice p 0 c1 ;;
               b <- copy_at (buf rb) (w rb) p1 ;;
               let c2 := GoInt.sub n c1 in
               p2 <- slice p c1 (len p) ;;
               b <- copy_at b 0 p2 ;;
               Some (with_w (with_buf rb b) c2)
           else
             b <- copy_at (buf rb) (w rb) p ;;
             Some (with_w (with_buf rb b) (GoInt.add (w rb) n))) ;;
    let rb := if w rb =? size rb then with_w rb 0 else rb in
    let rb := if w rb =? r rb then with_isFull rb true else rb in
    Some (rb, n, err).

(** [func (r *RingBuffer) WriteByte(c byte) error] *)
Definition WriteByte (rb : RingBuffer) (c : byte) : option (RingBuffer * option error) :=
  if (w rb =? r rb) && isFull rb then Some (rb, Some ErrIsFull)
  else
    b <- store (buf rb) (w rb) c ;;
    let rb := with_w (with_buf rb b) (GoInt.add (w rb) 1) in
    let rb := if w rb =? size rb then with_w rb 0 else rb in
    let rb := if w rb =? r rb then with_isFull rb true else rb in
    Some (rb, None).

(** [func (r *RingBuffer) Length() int] *)
Definition Length (rb : RingBuffer) : Z :=
  if w rb =? r rb then
    if isFull rb then size rb else 0
  else if w rb >? r rb then GoInt.sub (w rb) (r rb)
  else GoInt.add (GoInt.sub (size rb) (r rb)) (w rb).

(** [func (r *RingBuffer) Capacity() int] *)
Definition Capacity (rb : RingBuffer) : Z := size rb.

(** [func (r *RingBuffer) Free() int] *)
Definition Free (rb : RingBuffer) : Z :=
  if w rb =? r rb then
    if isFull rb then 0 else size rb
  else if w rb <? r rb then GoInt.sub (r rb) (w rb)
  else GoInt.add (GoInt.sub (size rb) (w rb)) (r rb).

(** [func (r *RingBuffer) WriteString(s string) (n int, err error)]: the
    string header is reinterpreted as a slice header over the same bytes. *)
Definition WriteString (rb : RingBuffer) (s : String.string)
  : option (RingBuffer * Z * option error) :=
  Write rb (String.list_byte_of_string s).

(** [func (r *RingBuffer) Bytes() []byte]; [nil] is the empty list.  The
    result holds the buffer after the call and the returned slice. *)
Definition Bytes (rb : RingBuffer) : option (RingBuffer * list byte) :=
  if w rb =? r rb then
    if isFull rb then
      b <- make (size rb) ;;
      src <- slice (buf rb) (r rb) (len (buf rb)) ;;
      let b := copy b src in
      src <- slice (buf rb) 0 (w rb) ;;
      b <- copy_at b (GoInt.sub (size rb) (r rb)) src ;;
      Some (rb, b)
    else Some (rb, [])
  else if w rb >? r rb then
    b <- make (GoInt.sub (w rb) (r rb)) ;;
    src <- slice (buf rb) (r rb) (w rb) ;;
    Some (rb, copy b src)
  else
    let n := GoInt.add (GoInt.sub (size rb) (r rb)) (w rb) in
    b <- make n ;;
    b <- (if GoInt.add (r rb) n <? size rb then
            src <- slice (buf rb) (r rb) (GoInt.add (r rb) n) ;;
            Some (copy b src)
          else
            let c1 := GoInt.sub (size rb) (r rb) in
            src <- slice (buf rb) (r rb) (size rb) ;;
            let b := copy b src in
            let c2 := GoInt.sub n c1 in
            src <- slice (buf rb) 0 c2 ;;
            copy_at b c1 src) ;;
    Some (rb, b).

(** [func (r *RingBuffer) IsFull() bool] *)
Definition IsFull (rb : RingBuffer) : bool := isFull rb.

(** [func (r *RingBuffer) IsEmpty() bool] *)
Definition IsEmpty (rb : RingBuffer) : bool := negb (isFull rb) && (w rb =? r rb).

(** [func (r *RingBuffer) Reset()] *)
Definition Reset (rb : RingBuffer) : RingBuffer :=
  with_isFull (with_w (with_r rb 0) 0) false.

(** ** Sequences of calls *)

(** A call of a public method, with its arguments. *)
Inductive op : Type :=
| OpRead (p : list byte)
| OpReadByte
| OpWrite (p : list byte)
| OpWriteByte (c : byte)
| OpWriteString (s : String.string)
| OpBytes
| OpLength
| OpCapacity
| OpFree
| OpIsFull
| OpIsEmpty
| OpReset.

(** The buffer after a call; [None] when the call panics. *)
Definition step (o : op) (rb : RingBuffer) : option RingBuffer :=
  match o with
  | OpRead p => '(rb', _, _, _) <- Read rb p ;; Some rb'
  | OpReadByte => '(rb', _, _) <- ReadByte rb ;; Some rb'
  | OpWrite p => '(rb', _, _) <- Write rb p ;; Some rb'
  | OpWriteByte c => '(rb', _) <- WriteByte rb c ;; Some rb'
  | OpWriteString s => '(rb', _, _) <- WriteString rb s ;; Some rb'
  | OpBytes => '(rb', _) <- Bytes rb ;; Some rb'
  | OpLength | OpCapacity | OpFree | OpIsFull | OpIsEmpty => Some rb
  | OpReset => Some (Reset rb)
  end.

(** The states a program can observe: those of a buffer returned by [New],
    after any number of calls. *)
Inductive reachable : RingBuffer -> Prop :=
| reach_New : forall sz rb, New sz = Some rb -> reachable rb
| reach_step : forall o rb rb', reachable rb -> step o rb = Some rb' -> reachable rb'.

(** The wrap-around scenario on a fresh buffer of capacity 4: [Write(x)],
    [Read(d)], [Write(y)], [Bytes()].  The result holds the count and error of
    each of the three calls, in order, and the slice returned by [Bytes]. *)
Definition wrap_scenario (x d y : list byte)
  : option (Z * option error * (Z * option error) * (Z * option error) * list byte) :=
  rb <- New 4 ;;
  '(rb, n1, e1) <- Write rb x ;;
  '(rb, _, n2, e2) <- Read rb d ;;
  '(rb, n3, e3) <- Write rb y ;;
  '(_, bs) <- Bytes rb ;;
  Some (n1, e1, (n2, e2), (n3, e3), bs).

(** ** Well-formed buffers *)

(** No slice of more than [max_cap] bytes is considered: twice the capacity
    then fits in an [int]. *)
Definition max_cap : Z := 4611686018427387904.

(** The invariants of the data model: a positive capacity that is the length
    of the storage, both cursors inside the storage, and the full flag raised
    only on coincident cursors. *)
Record wf (rb : RingBuffer) : Prop := mk_wf {
  wf_size : 0 < size rb <= max_cap;
  wf_buf : len (buf rb) = size rb;
  wf_r : 0 <= r rb < size rb;
  wf_w : 0 <= w rb < size rb;
  wf_full : isFull rb = true -> w rb = r rb
}.

(** [s[i]] as a total function, for statements about the stored bytes. *)
Definition zget (s : list byte) (i : Z) : byte := nth (Z.to_nat i) s x00.

(** ** Calls with their results *)

(** What a call returns to its caller. *)
Inductive result : Type :=
| RetRead (p : list byte) (n : Z) (err : option error)
| RetReadByte (b : byte) (err : option error)
| RetWrite (n : Z) (err : option error)
| RetWriteByte (err : option error)
| RetBytes (bs : list byte)
| RetInt (n : Z)
| RetBool (b : bool)
| RetUnit.

(** The buffer after a call and what the call returns; for [Read] the result
    holds the destination after the call. *)
Definition call (o : op) (rb : RingBuffer) : option (RingBuffer * result) :=
  match o with
  | OpRead p => '(rb', p', n, e) <- Read rb p ;; Some (rb', RetRead p' n e)
  | OpReadByte => '(rb', b, e) <- ReadByte rb ;; Some (rb', RetReadByte b e)
  | OpWrite p => '(rb', n, e) <- Write rb p ;; Some (rb', RetWrite n e)
  | OpWriteByte c => '(rb', e) <- WriteByte rb c ;; Some (rb', RetWriteByte e)
  | OpWriteString s => '(rb', n, e) <- WriteString rb s ;; Some (rb', RetWrite n e)
  | OpBytes => '(rb', bs) <- Bytes rb ;; Some (rb', RetBytes bs)
  | OpLength => Some (rb, RetInt (Length rb))
  | OpCapacity => Some (rb, RetInt (Capacity rb))
  | OpFree => Some (rb, RetInt (Free rb))
  | OpIsFull => Some (rb, RetBool (IsFull rb))
  | OpIsEmpty => Some (rb, RetBool (IsEmpty rb))
  | OpReset => Some (Reset rb, RetUnit)
  end.

(** The buffer after a sequence of calls; [None] as soon as one panics. *)
Fixpoint run (os : list op) (rb : RingBuffer) : option RingBuffer :=
  match os with
  | [] => Some rb
  | o :: os => rb' <- step o rb ;; run os rb'
  end.

(** The results of a sequence of calls, in order. *)
Fixpoint trace (os : list op) (rb : RingBuffer) : option (list result) :=
  match os with
  | [] => Some []
  | o :: os =>
      '(rb', res) <- call o rb ;;
      t <- trace os rb' ;;
      Some (res :: t)
  end.

(** ** Reference model: a bounded queue

    The behaviour the buffer is compared with: a list of at most [cap] bytes,
    oldest first, with the error policy of the methods.  It has no cursors,
    no storage and no flag. *)

Definition queue_write (cap : Z) (p q : list byte) : list byte * result :=
  if len p =? 0 then (q, RetWrite 0 None)
  else if len q =? cap then (q, RetWrite 0 (Some ErrIsFull))
  else
    let n := Z.min (len p) (cap - len q) in
    (q ++ firstn (Z.to_nat n) p,
     RetWrite n (if cap - len q <? len p then Some ErrTooManyDataToWrite else None)).

Definition queue_call (cap : Z) (o : op) (q : list byte) : list byte * result :=
  match o with
  | OpRead p =>
      if len p =? 0 then (q, RetRead p 0 None)
      else if len q =? 0 then (q, RetRead p 0 (Some ErrIsEmpty))
      else
        let n := Z.min (len q) (len p) in
        (skipn (Z.to_nat n) q,
         RetRead (firstn (Z.to_nat n) q ++ skipn (Z.to_nat n) p) n None)
  | OpReadByte =>
      match q with
      | [] => (q, RetReadByte x00 (Some ErrIsEmpty))
      | b :: q' => (q', RetReadByte b None)
      end
  | OpWrite p => queue_write cap p q
  | OpWriteByte c =>
      if len q =? cap then (q, RetWriteByte (Some ErrIsFull))
      else (q ++ [c], RetWriteByte None)
  | OpWriteString s => queue_write cap (String.list_byte_of_string s) q
  | OpBytes => (q, RetBytes q)
  | OpLength => (q, RetInt (len q))
  | OpCapacity => (q, RetInt cap)
  | OpFree => (q, RetInt (cap - len q))
  | OpIsFull => (q, RetBool (len q =? cap))
  | OpIsEmpty => (q, RetBool (len q =? 0))
  | OpReset => ([], RetUnit)
  end.

Fixpoint queue_trace (cap : Z) (os : list op) (q : list byte) : list result :=
  match os with
  | [] => []
  | o :: os =>
      let '(q', res) := queue_call cap o q in
      res :: queue_trace cap os q'
  end.

(** * Properties *)

(** ** Integers *)

Lemma wrap_small (z : Z) :
  GoInt.min_int <= z <= GoInt.max_int -> GoInt.wrap z = z.
Proof.
  unfold GoInt.min_int, GoInt.max_int, GoInt.wrap. intros H.
  rewrite Z.mod_small; lia.
Qed.

Lemma mod_once (x s : Z) :
  0 < s -> 0 <= x < 2 * s -> x mod s = if x <? s then x else x - s.
Proof.
  intros Hs Hx. destruct (Z.ltb_spec x s).
  - apply Z.mod_small. lia.
  - symmetry. apply Z.mod_unique_pos with (q := 1); lia.
Qed.

Ltac int_bounds := unfold GoInt.min_int, GoInt.max_int, max_cap in *; lia.

Ltac unwrap :=
  unfold GoInt.add, GoInt.sub;
  repeat match goal with
         | |- context [GoInt.wrap ?z] => rewrite (wrap_small z) by int_bounds
         end.

Ltac no_if t :=
  lazymatch t with
  | context [if _ then _ else _] => fail
  | _ => idtac
  end.

Ltac simpl_rb :=
  cbn [buf size r w isFull with_buf with_r with_w with_isFull andb orb negb bind] in *.

(** Case analysis on the integer comparisons of the goal, innermost first. *)
Ltac zcase1 :=
  match goal with
  | |- context [?a <? ?b] => no_if a; no_if b; destruct (Z.ltb_spec a b)
  | |- context [?a <=? ?b] => no_if a; no_if b; destruct (Z.leb_spec a b)
  | |- context [?a =? ?b] => no_if a; no_if b; destruct (Z.eqb_spec a b)
  end.

Ltac zcases :=
  rewrite ?Z.gtb_ltb, ?Z.geb_leb in *;
  simpl_rb;
  repeat (zcase1; simpl_rb).

(** ** Slices *)

Lemma len_nonneg (s : list byte) : 0 <= len s.
Proof. unfold len. lia. Qed.

Lemma len_nil_inv (s : list byte) : len s = 0 -> s = [].
Proof. destruct s; [reflexivity | unfold len; cbn; lia]. Qed.

Lemma len_cons (c : byte) (s : list byte) : len (c :: s) = 1 + len s.
Proof. unfold len. cbn [length]. lia. Qed.

Lemma len_app (a b : list byte) : len (a ++ b) = len a + len b.
Proof. unfold len. rewrite length_app. lia. Qed.

Lemma len_firstn (n : Z) (s : list byte) :
  0 <= n -> len (firstn (Z.to_nat n) s) = Z.min n (len s).
Proof. intros. unfold len. rewrite length_firstn. lia. Qed.

Lemma len_skipn (n : Z) (s : list byte) :
  0 <= n -> len (skipn (Z.to_nat n) s) = Z.max 0 (len s - n).
Proof. intros. unfold len. rewrite length_skipn. lia. Qed.

Lemma zget_app1 (a b : list byte) (i : Z) :
  0 <= i < len a -> zget (a ++ b) i = zget a i.
Proof. unfold zget, len. intros. apply app_nth1. lia. Qed.

Lemma zget_app2 (a b : list byte) (i : Z) :
  len a <= i -> zget (a ++ b) i = zget b (i - len a).
Proof.
  unfold zget, len. intros. rewrite app_nth2 by lia.
  f_equal. lia.
Qed.

Lemma zget_firstn (n : Z) (s : list byte) (i : Z) :
  0 <= i < n -> zget (firstn (Z.to_nat n) s) i = zget s i.
Proof.
  unfold zget. intros. rewrite nth_firstn.
  destruct (Nat.ltb_spec (Z.to_nat i) (Z.to_nat n)); [reflexivity | lia].
Qed.

Lemma zget_skipn (n : Z) (s : list byte) (i : Z) :
  0 <= n -> 0 <= i -> zget (skipn (Z.to_nat n) s) i = zget s (n + i).
Proof.
  unfold zget. intros. rewrite nth_skipn. f_equal. lia.
Qed.

(** Two slices of the same length with the same bytes are equal. *)
Lemma zget_ext (a b : list byte) :
  len a = len b ->
  (forall i, 0 <= i < len a -> zget a i = zget b i) ->
  a = b.
Proof.
  unfold len, zget. intros Hl H.
  apply nth_ext with (d := x00) (d' := x00); [lia |].
  intros n Hn. specialize (H (Z.of_nat n)).
  rewrite Nat2Z.id in H. apply H. lia.
Qed.

Lemma make_ok (n : Z) :
  0 <= n -> exists b, make n = Some b /\ len b = n.
Proof.
  intros. unfold make. destruct (Z.ltb_spec n 0); [lia |].
  eexists; split; [reflexivity |].
  unfold len. rewrite repeat_length. lia.
Qed.

Lemma slice_ok (s : list byte) (lo hi : Z) :
  0 <= lo <= hi -> hi <= len s ->
  exists t, slice s lo hi = Some t /\ len t = hi - lo /\
            forall i, 0 <= i < hi - lo -> zget t i = zget s (lo + i).
Proof.
  intros H1 H2. unfold slice.
  destruct (Z.leb_spec 0 lo); [| lia].
  destruct (Z.leb_spec lo hi); [| lia].
  destruct (Z.leb_spec hi (len s)); [| lia]. cbn [andb].
  eexists; split; [reflexivity | split].
  - rewrite len_firstn, len_skipn by lia. lia.
  - intros i Hi. rewrite zget_firstn, zget_skipn by lia. reflexivity.
Qed.

Lemma copy_ok (dst src : list byte) :
  len (copy dst src) = len dst /\
  forall i, 0 <= i < len dst ->
            zget (copy dst src) i = if i <? len src then zget src i else zget dst i.
Proof.
  unfold copy.
  assert (E : length dst = Z.to_nat (len dst)) by (unfold len; lia).
  assert (E' : length src = Z.to_nat (len src)) by (unfold len; lia).
  pose proof (len_nonneg dst). pose proof (len_nonneg src).
  rewrite E, E'. split.
  - rewrite len_app, len_firstn, len_skipn by lia. lia.
  - intros i Hi. destruct (Z.ltb_spec i (len src)).
    + rewrite zget_app1 by (rewrite len_firstn by lia; lia).
      apply zget_firstn. lia.
    + rewrite zget_app2 by (rewrite len_firstn by lia; lia).
      rewrite len_firstn by lia. rewrite zget_skipn by lia.
      f_equal. lia.
Qed.

Lemma copy_at_ok (dst : list byte) (off : Z) (src : list byte) :
  0 <= off <= len dst ->
  exists d, copy_at dst off src = Some d /\ len d = len dst /\
            forall i, 0 <= i < len dst ->
                      zget d i = if (off <=? i) && (i <? off + len src)
                                 then zget src (i - off) else zget dst i.
Proof.
  intros H. unfold copy_at.
  destruct (slice_ok dst off (len dst)) as (t & Ht & Hl & Hg); [lia | lia |].
  rewrite Ht. cbn [bind].
  destruct (copy_ok t src) as (Hcl & Hcg).
  eexists; split; [reflexivity | split].
  - rewrite len_app, len_firstn, Hcl by lia. lia.
  - intros i Hi. destruct (Z.leb_spec off i); cbn [andb].
    + rewrite zget_app2 by (rewrite len_firstn by lia; lia).
      rewrite len_firstn by lia. replace (Z.min off (len dst)) with off by lia.
      rewrite Hcg by lia.
      destruct (Z.ltb_spec (i - off) (len src)); destruct (Z.ltb_spec i (off + len src));
        try lia; [reflexivity |].
      rewrite Hg by lia. f_equal. lia.
    + rewrite zget_app1 by (rewrite len_firstn by lia; lia).
      apply zget_firstn. lia.
Qed.

Lemma index_ok (s : list byte) (i : Z) :
  0 <= i < len s -> index s i = Some (zget s i).
Proof.
  intros H. unfold index, zget.
  destruct (Z.leb_spec 0 i); [| lia]. destruct (Z.ltb_spec i (len s)); [| lia].
  cbn [andb]. apply nth_error_nth'. unfold len in *. lia.
Qed.

Lemma store_ok (s : list byte) (i : Z) (c : byte) :
  0 <= i < len s ->
  exists d, store s i c = Some d /\ len d = len s /\
            forall j, 0 <= j < len s -> zget d j = if j =? i then c else zget s j.
Proof.
  intros H. unfold store.
  destruct (Z.leb_spec 0 i); [| lia]. destruct (Z.ltb_spec i (len s)); [| lia].
  cbn [andb]. eexists; split; [reflexivity | split].
  - replace (S (Z.to_nat i)) with (Z.to_nat (i + 1)) by lia.
    rewrite len_app, len_cons, len_firstn, len_skipn by lia. lia.
  - intros j Hj. replace (S (Z.to_nat i)) with (Z.to_nat (i + 1)) by lia.
    destruct (Z.eqb_spec j i).
    + subst j. rewrite zget_app2 by (rewrite len_firstn by lia; lia).
      rewrite len_firstn by lia. replace (i - Z.min i (len s)) with 0 by lia.
      reflexivity.
    + destruct (Z.ltb_spec j i).
      * rewrite zget_app1 by (rewrite len_firstn by lia; lia).
        apply zget_firstn. lia.
      * rewrite zget_app2 by (rewrite len_firstn by lia; lia).
        rewrite len_firstn by lia. replace (Z.min i (len s)) with i by lia.
        unfold zget at 1. replace (Z.to_nat (j - i)) with (S (Z.to_nat (j - i - 1))) by lia.
        cbn [nth]. fold (zget (skipn (Z.to_nat (i + 1)) s) (j - i - 1)).
        rewrite zget_skipn by lia. f_equal. lia.
Qed.

(** ** Occupancy *)

Lemma mod_back (x s : Z) :
  0 < s -> - s <= x < s -> x mod s = if x <? 0 then x + s else x.
Proof.
  intros Hs Hx. destruct (Z.ltb_spec x 0).
  - symmetry. apply Z.mod_unique_pos with (q := -1); lia.
  - apply Z.mod_small. lia.
Qed.

Lemma Length_wf (rb : RingBuffer) :
  wf rb ->
  Length rb = (if isFull rb then size rb
               else if w rb <? r rb then size rb - r rb + w rb else w rb - r rb)
  /\ 0 <= Length rb <= size rb.
Proof.
  intros [Hs Hb Hr Hw Hf]. unfold Length.
  destruct (isFull rb) eqn:F.
  - rewrite (Hf eq_refl), Z.eqb_refl. lia.
  - zcases; unwrap; lia.
Qed.

Lemma Free_wf (rb : RingBuffer) :
  wf rb -> Free rb = size rb - Length rb.
Proof.
  intros H. destruct (Length_wf rb H) as [E _]. rewrite E.
  destruct H as [Hs Hb Hr Hw Hf]. unfold Free.
  destruct (isFull rb) eqn:F.
  - rewrite (Hf eq_refl), Z.eqb_refl. lia.
  - zcases; unwrap; lia.
Qed.

Lemma Write_effect (rb : RingBuffer) (p : list byte) :
  wf rb -> isFull rb = false -> 0 < len p ->
  exists rb',
    Write rb p = Some (rb', Z.min (len p) (Free rb),
                       if len p >? Free rb then Some ErrTooManyDataToWrite else None)
    /\ wf rb' /\ size rb' = size rb /\ r rb' = r rb
    /\ w rb' = (w rb + Z.min (len p) (Free rb)) mod size rb
    /\ isFull rb' = (Z.min (len p) (Free rb) =? Free rb)
    /\ forall j, 0 <= j < size rb ->
         zget (buf rb') j =
         if (j - w rb) mod size rb <? Z.min (len p) (Free rb)
         then zget p ((j - w rb) mod size rb) else zget (buf rb) j.
Proof.
  intros H F Hp. pose proof (Free_wf rb H) as HF.
  destruct (Length_wf rb H) as [HL HLr]. rewrite F in HL.
  destruct H as [Hs Hb Hr Hw Hf].
  unfold Write. rewrite F.
  destruct (Z.eqb_spec (len p) 0) as [|_]; [lia |].
  assert (Ha : (if w rb >=? r rb
                then GoInt.add (GoInt.sub (size rb) (w rb)) (r rb)
                else GoInt.sub (r rb) (w rb)) = Free rb).
  { rewrite HF, HL. zcases; unwrap; lia. }
  rewrite Ha. clear Ha.
  set (n := Z.min (len p) (Free rb)).
  assert (Hq : exists q,
             (if len p >? Free rb
              then p' <- slice p 0 (Free rb) ;; Some (Some ErrTooManyDataToWrite, p')
              else Some (None, p))
             = Some (if len p >? Free rb then Some ErrTooManyDataToWrite else None, q)
             /\ len q = n
             /\ forall i, 0 <= i < n -> zget q i = zget p i).
  { rewrite Z.gtb_ltb. destruct (Z.ltb_spec (Free rb) (len p)).
    - destruct (slice_ok p 0 (Free rb)) as (q & Hq & Hl & Hg); [lia | lia |].
      rewrite Hq. exists q. cbn [bind]. repeat split; [lia |].
      intros i Hi. rewrite Hg by lia. f_equal.
    - exists p. repeat split; lia. }
  destruct Hq as (q & Hq & Hl & Hg). rewrite Hq. cbn [bind]. clear Hq.
  rewrite Hl.
  assert (HLs : Length rb < size rb) by (rewrite HL; zcases; lia).
  assert (Hn : 0 < n <= Free rb) by (subst n; lia).
  clearbody n. rewrite HF in *.
  assert (Hcap : (w rb < r rb -> n <= r rb - w rb)
                 /\ (r rb <= w rb -> n <= size rb - w rb + r rb)).
  { revert Hn. rewrite HL. destruct (Z.ltb_spec (w rb) (r rb)); lia. }
  match goal with
  | |- context [bind ?m _] =>
      assert (Hb2 : exists b,
                 m = Some (with_w (with_buf rb b)
                             (if w rb + n <=? size rb then w rb + n
                              else w rb + n - size rb))
                 /\ len b = size rb
                 /\ forall j, 0 <= j < size rb ->
                      zget b j =
                      if (w rb <=? j) && (j <? w rb + n) || (j <? w rb + n - size rb)
                      then zget q (if w rb <=? j then j - w rb else j - w rb + size rb)
                      else zget (buf rb) j)
  end.
  { rewrite !Z.geb_leb. destruct (Z.leb_spec (r rb) (w rb)).
    - unwrap. destruct (Z.leb_spec n (size rb - w rb)).
      + destruct (copy_at_ok (buf rb) (w rb) q) as (b & Hc & Hcl & Hcg); [lia |].
        rewrite Hc. cbn [bind]. exists b. zcases; try lia.
        split; [reflexivity | split; [lia |]].
        intros j Hj. rewrite Hcg by lia. rewrite Hl. zcases; try lia; reflexivity.
      + destruct (slice_ok q 0 (size rb - w rb)) as (p1 & H1 & Hl1 & Hg1); [lia | lia |].
        rewrite H1. cbn [bind].
        destruct (copy_at_ok (buf rb) (w rb) p1) as (b & Hc & Hcl & Hcg); [lia |].
        rewrite Hc. cbn [bind].
        destruct (slice_ok q (size rb - w rb) n) as (p2 & H2 & Hl2 & Hg2); [lia | lia |].
        rewrite H2. cbn [bind].
        destruct (copy_at_ok b 0 p2) as (b0 & Hc0 & Hcl0 & Hcg0); [lia |].
        rewrite Hc0. cbn [bind]. exists b0. zcases; try lia.
        split; [f_equal; f_equal; lia | split; [lia |]].
        intros j Hj. rewrite Hcg0 by lia. rewrite Hl2.
        zcases; try lia.
        * rewrite Hg2 by lia. f_equal; lia.
        * rewrite Hcg by lia. rewrite Hl1. zcases; try lia.
          rewrite Hg1 by lia. f_equal; lia.
        * rewrite Hcg by lia. rewrite Hl1. zcases; try lia; reflexivity.
    - unwrap.
      destruct (copy_at_ok (buf rb) (w rb) q) as (b & Hc & Hcl & Hcg); [lia |].
      rewrite Hc. cbn [bind]. exists b. zcases; try lia.
      split; [reflexivity | split; [lia |]].
      intros j Hj. rewrite Hcg by lia. rewrite Hl. zcases; try lia; reflexivity. }
  destruct Hb2 as (b & Hb2 & Hbl & Hbg). rewrite Hb2. cbn [bind]. clear Hb2.
  cbn [w r size buf isFull with_w with_buf with_isFull].
  rewrite (mod_once (w rb + n) (size rb)) by lia.
  assert (Hwf : forall b' w' f',
             len b' = size rb -> 0 <= w' < size rb -> (f' = true -> w' = r rb) ->
             wf (mkRingBuffer b' (size rb) (r rb) w' f')).
  { intros. constructor; cbn; auto. }
  assert (Hpt : forall j, 0 <= j < size rb ->
             zget b j = if (j - w rb) mod size rb <? n
                        then zget p ((j - w rb) mod size rb) else zget (buf rb) j).
  { intros j Hj. rewrite Hbg by lia. rewrite (mod_back (j - w rb) (size rb)) by lia.
    zcases; try lia; try reflexivity; rewrite Hg by lia; f_equal; lia. }
  clear Hbg Hg.
  generalize (if len p >? size rb - Length rb
              then Some ErrTooManyDataToWrite else None).
  intros err.
  revert Hn Hcap. rewrite HL. intros Hn Hcap.
  zcases; try lia;
    (eexists; split; [reflexivity |]; unfold with_isFull, with_w, with_buf; simpl_rb;
     split; [apply Hwf; [assumption | lia | first [rewrite F; discriminate | intros _; lia]] |];
     repeat split; try lia; try assumption; try (rewrite F; reflexivity)).
Qed.

Lemma rem_ok (a b : Z) :
  0 <= a <= GoInt.max_int -> 0 < b -> GoInt.rem a b = Some (a mod b).
Proof.
  intros Ha Hb. unfold GoInt.rem. destruct (Z.eqb_spec b 0); [lia |].
  rewrite Z.rem_mod_nonneg by lia.
  pose proof (Z.mod_pos_bound a b Hb).
  pose proof (Z.mod_le a b (proj1 Ha) Hb).
  rewrite wrap_small by int_bounds. reflexivity.
Qed.

Lemma Read_effect (rb : RingBuffer) (p : list byte) :
  wf rb -> 0 < Length rb -> 0 < len p ->
  exists rb' p',
    Read rb p = Some (rb', p', Z.min (Length rb) (len p), None)
    /\ wf rb' /\ buf rb' = buf rb /\ size rb' = size rb /\ w rb' = w rb
    /\ r rb' = (r rb + Z.min (Length rb) (len p)) mod size rb
    /\ isFull rb' = false
    /\ len p' = len p
    /\ forall i, 0 <= i < len p ->
         zget p' i =
         if i <? Z.min (Length rb) (len p)
         then zget (buf rb) ((r rb + i) mod size rb) else zget p i.
Proof.
  intros H HL0 Hp.
  destruct (Length_wf rb H) as [HL HLr].
  destruct H as [Hs Hb Hr Hw Hf].
  assert (Hwf : forall r' f',
             0 <= r' < size rb -> (f' = true -> w rb = r') ->
             wf (mkRingBuffer (buf rb) (size rb) r' (w rb) f')).
  { intros. constructor; cbn; auto. }
  unfold Read.
  destruct (Z.eqb_spec (len p) 0) as [|_]; [lia |].
  set (n := Z.min (Length rb) (len p)).
  assert (Hn : 0 < n <= Length rb /\ n <= len p) by (subst n; lia).
  assert (Hmod : 0 <= (r rb + n) mod size rb < size rb)
    by (apply Z.mod_pos_bound; lia).
  assert (Hgoal : forall q,
             len q = len p ->
             (forall i, 0 <= i < len p ->
                        zget q i = if i <? n
                                   then zget (buf rb) (if r rb + i <? size rb then r rb + i
                                                       else r rb + i - size rb)
                                   else zget p i) ->
             forall i, 0 <= i < len p ->
                       zget q i = if i <? n then zget (buf rb) ((r rb + i) mod size rb)
                                  else zget p i).
  { intros q Hq Hqg i Hi. rewrite Hqg by lia.
    destruct (Z.ltb_spec i n); [| reflexivity].
    rewrite (mod_once (r rb + i) (size rb)) by lia. reflexivity. }
  assert (HA : r rb < w rb -> Length rb = w rb - r rb /\ isFull rb = false).
  { intros Hlt. rewrite HL. destruct (isFull rb); [specialize (Hf eq_refl); lia |].
    zcases; try lia; auto. }
  assert (HB : w rb <= r rb -> Length rb = size rb - r rb + w rb /\
                               ((w rb =? r rb) && negb (isFull rb) = false)).
  { intros Hle. revert HL0. rewrite HL. destruct (isFull rb).
    - specialize (Hf eq_refl). rewrite andb_false_r. split; [lia | reflexivity].
    - zcases; try lia; auto. }
  clear HL.
  rewrite !Z.gtb_ltb.
  destruct (Z.ltb_spec (r rb) (w rb)) as [Hlt | Hle].
  - destruct (HA Hlt) as [EL F].
    destruct (Z.eqb_spec (w rb) (r rb)) as [|_]; [lia |]. cbn [andb].
    unwrap.
    replace (if len p <? w rb - r rb then len p else w rb - r rb) with n
      by (subst n; rewrite EL; zcases; lia).
    rewrite EL in Hn. clearbody n. unwrap.
    destruct (slice_ok (buf rb) (r rb) (r rb + n)) as (src & Hsl & Hsl_len & Hsl_get);
      [lia | lia |].
    rewrite Hsl. cbn [bind].
    rewrite rem_ok by int_bounds. cbn [bind].
    destruct (copy_ok p src) as [Hcl Hcg].
    do 2 eexists; split; [reflexivity |]. unfold with_r; simpl_rb.
    split; [apply Hwf; [lia | rewrite F; discriminate] |].
    repeat split; try assumption.
    apply Hgoal; [assumption |].
    intros i Hi. rewrite Hcg by lia. rewrite Hsl_len.
    zcases; try lia; try reflexivity. rewrite Hsl_get by lia. reflexivity.
  - destruct (HB Hle) as [EL F]. rewrite F.
    unwrap.
    replace (if len p <? size rb - r rb + w rb then len p else size rb - r rb + w rb)
      with n by (subst n; rewrite EL; zcases; lia).
    rewrite EL in Hn. clearbody n. unwrap.
    match goal with
    | |- context [bind ?m _] =>
        assert (Hq : exists q, m = Some q /\ len q = len p /\
                   forall i, 0 <= i < len p ->
                        zget q i = if i <? n
                                   then zget (buf rb) (if r rb + i <? size rb then r rb + i
                                                       else r rb + i - size rb)
                                   else zget p i)
    end.
    { destruct (Z.leb_spec (r rb + n) (size rb)).
      - destruct (slice_ok (buf rb) (r rb) (r rb + n)) as (src & Hsl & Hsl_len & Hsl_get);
          [lia | lia |].
        rewrite Hsl. cbn [bind].
        destruct (copy_ok p src) as [Hcl Hcg].
        eexists; split; [reflexivity | split; [assumption |]].
        intros i Hi. rewrite Hcg by lia. rewrite Hsl_len.
        zcases; try lia; try reflexivity. rewrite Hsl_get by lia. reflexivity.
      - destruct (slice_ok (buf rb) (r rb) (size rb)) as (src & Hsl & Hsl_len & Hsl_get);
          [lia | lia |].
        rewrite Hsl. cbn [bind].
        destruct (slice_ok (buf rb) 0 (n - (size rb - r rb)))
          as (src0 & Hsl0 & Hsl0_len & Hsl0_get); [lia | lia |].
        rewrite Hsl0. cbn [bind].
        destruct (copy_ok p src) as [Hcl Hcg].
        destruct (copy_at_ok (copy p src) (size rb - r rb) src0) as (q & Hq & Hql & Hqg);
          [lia |].
        rewrite Hq. exists q. split; [reflexivity | split; [lia |]].
        intros i Hi. rewrite Hqg by lia. rewrite Hsl0_len.
        zcases; try lia.
        + rewrite Hcg by lia. rewrite Hsl_len. zcases; try lia.
          rewrite Hsl_get by lia. reflexivity.
        + rewrite Hsl0_get by lia. f_equal; lia.
        + rewrite Hcg by lia. rewrite Hsl_len. zcases; try lia. reflexivity. }
    destruct Hq as (q & Hq & Hql & Hqg). rewrite Hq. cbn [bind].
    rewrite rem_ok by int_bounds. cbn [bind].
    do 2 eexists; split; [reflexivity |]. unfold with_r, with_isFull; simpl_rb.
    split; [apply Hwf; [lia | discriminate] |].
    repeat split; try assumption.
    apply Hgoal; assumption.
Qed.

Lemma ReadByte_effect (rb : RingBuffer) :
  wf rb -> 0 < Length rb ->
  exists rb',
    ReadByte rb = Some (rb', zget (buf rb) (r rb), None)
    /\ wf rb' /\ buf rb' = buf rb /\ size rb' = size rb /\ w rb' = w rb
    /\ r rb' = (r rb + 1) mod size rb
    /\ isFull rb' = false.
Proof.
  intros H HL0.
  destruct (Length_wf rb H) as [HL HLr].
  destruct H as [Hs Hb Hr Hw Hf].
  assert (Hwf : forall r',
             0 <= r' < size rb ->
             wf (mkRingBuffer (buf rb) (size rb) r' (w rb) false)).
  { intros. constructor; cbn; auto. discriminate. }
  assert (F : (w rb =? r rb) && negb (isFull rb) = false).
  { revert HL0. rewrite HL. destruct (isFull rb); [rewrite andb_false_r; reflexivity |].
    zcases; try lia; auto. }
  unfold ReadByte. rewrite F.
  rewrite index_ok by lia. cbn [bind]. unwrap.
  rewrite (mod_once (r rb + 1) (size rb)) by lia.
  zcases; try lia;
    (eexists; split; [reflexivity |]; unfold with_r, with_isFull; simpl_rb;
     split; [apply Hwf; lia |]; repeat split; lia).
Qed.

Lemma WriteByte_effect (rb : RingBuffer) (c : byte) :
  wf rb -> isFull rb = false ->
  exists rb',
    WriteByte rb c = Some (rb', None)
    /\ wf rb' /\ size rb' = size rb /\ r rb' = r rb
    /\ w rb' = (w rb + 1) mod size rb
    /\ isFull rb' = (1 =? Free rb)
    /\ forall j, 0 <= j < size rb ->
         zget (buf rb') j = if j =? w rb then c else zget (buf rb) j.
Proof.
  intros H F. pose proof (Free_wf rb H) as HF.
  destruct (Length_wf rb H) as [HL HLr]. rewrite F in HL.
  destruct H as [Hs Hb Hr Hw Hf].
  assert (Hwf : forall b' w' f',
             len b' = size rb -> 0 <= w' < size rb -> (f' = true -> w' = r rb) ->
             wf (mkRingBuffer b' (size rb) (r rb) w' f')).
  { intros. constructor; cbn; auto. }
  unfold WriteByte. rewrite F, andb_false_r.
  destruct (store_ok (buf rb) (w rb) c) as (b & Hst & Hbl & Hbg); [lia |].
  rewrite Hst. cbn [bind]. unwrap.
  rewrite (mod_once (w rb + 1) (size rb)) by lia.
  rewrite HF, HL. rewrite Hb in *.
  zcases; try lia;
    (eexists; split; [reflexivity |]; unfold with_w, with_buf, with_isFull; simpl_rb;
     split; [apply Hwf; [lia | lia | first [rewrite F; discriminate | intros _; lia]] |];
     repeat split; try lia; try assumption; try (rewrite F; reflexivity)).
Qed.

(** [Bytes] returns the [Length] unread bytes in storage order from the read
    cursor on, continuing at index 0 after the end of the storage. *)
Lemma Bytes_effect (rb : RingBuffer) :
  wf rb ->
  exists bs,
    Bytes rb = Some (rb, bs)
    /\ len bs = Length rb
    /\ forall i, 0 <= i < Length rb ->
         zget bs i = zget (buf rb) ((r rb + i) mod size rb).
Proof.
  intros H.
  destruct (Length_wf rb H) as [HL HLr].
  destruct H as [Hs Hb Hr Hw Hf].
  assert (Hgoal : forall bs,
             len bs = Length rb ->
             (forall i, 0 <= i < Length rb ->
                        zget bs i = zget (buf rb) (if r rb + i <? size rb then r rb + i
                                                   else r rb + i - size rb)) ->
             len bs = Length rb /\
             forall i, 0 <= i < Length rb ->
                       zget bs i = zget (buf rb) ((r rb + i) mod size rb)).
  { intros bs Hl Hbs. split; [assumption |]. intros i Hi.
    rewrite (mod_once (r rb + i) (size rb)) by lia. auto. }
  unfold Bytes.
  destruct (Z.eqb_spec (w rb) (r rb)) as [E | E].
  - destruct (isFull rb) eqn:F.
    + destruct (make_ok (size rb)) as (b & Hm & Hml); [lia |].
      rewrite Hm. cbn [bind].
      destruct (slice_ok (buf rb) (r rb) (len (buf rb))) as (s1 & Hs1 & Hl1 & Hg1);
        [lia | lia |].
      rewrite Hs1. cbn [bind].
      destruct (slice_ok (buf rb) 0 (w rb)) as (s2 & Hs2 & Hl2 & Hg2); [lia | lia |].
      rewrite Hs2. cbn [bind]. unwrap.
      destruct (copy_ok b s1) as [Hcl Hcg].
      destruct (copy_at_ok (copy b s1) (size rb - r rb) s2) as (bs & Hbs & Hbl & Hbg);
        [lia |].
      rewrite Hbs. cbn [bind]. exists bs. split; [reflexivity |].
      apply Hgoal; [lia |].
      intros i Hi. rewrite Hbg by lia. rewrite Hl2.
      zcases; try lia.
      * rewrite Hcg by lia. rewrite Hl1. zcases; try lia. rewrite Hg1 by lia. reflexivity.
      * rewrite Hg2 by lia. f_equal; lia.
    + exists []. split; [reflexivity |]. rewrite HL.
      rewrite E, Z.ltb_irrefl, Z.sub_diag.
      split; [reflexivity | intros; lia].
  - assert (F : isFull rb = false).
    { destruct (isFull rb); [specialize (Hf eq_refl); lia | reflexivity]. }
    rewrite F in HL. rewrite Z.gtb_ltb.
    destruct (Z.ltb_spec (r rb) (w rb)).
    + unwrap.
      destruct (make_ok (w rb - r rb)) as (b & Hm & Hml); [lia |].
      rewrite Hm. cbn [bind].
      destruct (slice_ok (buf rb) (r rb) (w rb)) as (s1 & Hs1 & Hl1 & Hg1);
        [lia | lia |].
      rewrite Hs1. cbn [bind].
      destruct (copy_ok b s1) as [Hcl Hcg].
      eexists. split; [reflexivity |].
      revert HL. zcases; try lia. intros HL.
      apply Hgoal; [lia |].
      intros i Hi. rewrite Hcg by lia. rewrite Hl1.
      zcases; try lia. rewrite Hg1 by lia. reflexivity.
    + unwrap.
      destruct (make_ok (size rb - r rb + w rb)) as (b & Hm & Hml); [lia |].
      rewrite Hm. cbn [bind].
      destruct (Z.ltb_spec (r rb + (size rb - r rb + w rb)) (size rb)); [lia |].
      destruct (slice_ok (buf rb) (r rb) (size rb)) as (s1 & Hs1 & Hl1 & Hg1);
        [lia | lia |].
      rewrite Hs1. cbn [bind].
      destruct (slice_ok (buf rb) 0 (size rb - r rb + w rb - (size rb - r rb)))
        as (s2 & Hs2 & Hl2 & Hg2); [lia | lia |].
      rewrite Hs2. cbn [bind].
      destruct (copy_ok b s1) as [Hcl Hcg].
      destruct (copy_at_ok (copy b s1) (size rb - r rb) s2) as (bs & Hbs & Hbl & Hbg);
        [lia |].
      rewrite Hbs. cbn [bind]. exists bs. split; [reflexivity |].
      revert HL. zcases; try lia. intros HL.
      apply Hgoal; [lia |].
      intros i Hi. rewrite Hbg by lia. rewrite Hl2.
      zcases; try lia.
      * rewrite Hcg by lia. rewrite Hl1. zcases; try lia. rewrite Hg1 by lia. reflexivity.
      * rewrite Hg2 by lia. f_equal; lia.
Qed.

(** ** The buffer as a queue of bytes

    [Bytes] is the observation through which the effect of a call on the
    stored bytes is stated. *)

Lemma zget_firstn_app (n : Z) (a b : list byte) (i : Z) :
  0 <= n <= len a -> 0 <= i ->
  zget (firstn (Z.to_nat n) a ++ b) i = if i <? n then zget a i else zget b (i - n).
Proof.
  intros Hn Hi. destruct (Z.ltb_spec i n).
  - rewrite zget_app1 by (rewrite len_firstn by lia; lia).
    apply zget_firstn. lia.
  - rewrite zget_app2 by (rewrite len_firstn by lia; lia).
    rewrite len_firstn by lia. f_equal. lia.
Qed.

Lemma Write_Bytes (rb : RingBuffer) (p : list byte) :
  wf rb -> isFull rb = false -> 0 < len p ->
  exists rb' bs,
    Write rb p = Some (rb', Z.min (len p) (Free rb),
                       if len p >? Free rb then Some ErrTooManyDataToWrite else None)
    /\ wf rb'
    /\ size rb' = size rb /\ r rb' = r rb
    /\ w rb' = (w rb + Z.min (len p) (Free rb)) mod size rb
    /\ isFull rb' = (Z.min (len p) (Free rb) =? Free rb)
    /\ Length rb' = Length rb + Z.min (len p) (Free rb)
    /\ Bytes rb = Some (rb, bs)
    /\ Bytes rb' = Some (rb', bs ++ firstn (Z.to_nat (Z.min (len p) (Free rb))) p).
Proof.
  intros H F Hp.
  destruct (Write_effect rb p H F Hp) as (rb' & HW & Hwf' & Hsz & Hr' & Hw' & Hf' & Hbuf).
  destruct (Bytes_effect rb H) as (bs & HB & Hbl & Hbg).
  destruct (Bytes_effect rb' Hwf') as (bs' & HB' & Hbl' & Hbg').
  pose proof (Free_wf rb H) as HF.
  destruct (Length_wf rb H) as [HL HLr]. rewrite F in HL.
  destruct (Length_wf rb' Hwf') as [HL' _].
  set (n := Z.min (len p) (Free rb)) in *.
  assert (HLs : Length rb < size rb) by (rewrite HL; destruct H; zcases; lia).
  assert (Hn : 0 < n <= Free rb /\ n <= len p) by (subst n; lia).
  clearbody n.
  assert (HLn : Length rb' = Length rb + n).
  { rewrite HL', Hf', Hr', Hw', Hsz, HF.
    rewrite (mod_once (w rb + n) (size rb)) by (destruct H; lia).
    revert Hn. rewrite HF, HL. destruct H. zcases; lia. }
  exists rb', bs. repeat (split; [assumption |]).
  rewrite HB'. do 2 f_equal.
  apply zget_ext.
  - rewrite len_app, len_firstn by lia. lia.
  - intros i Hi. rewrite Hbl' in Hi.
    rewrite Hbg' by lia. rewrite Hsz, Hr'.
    assert (Hj : 0 <= (r rb + i) mod size rb < size rb)
      by (apply Z.mod_pos_bound; destruct H; lia).
    rewrite Hbuf by assumption.
    destruct (Z.ltb_spec i (Length rb)) as [Hlt | Hge].
    + rewrite zget_app1 by lia. rewrite Hbg by lia.
      rewrite (mod_once (r rb + i) (size rb)) in * by (destruct H; lia).
      revert Hj Hn Hlt. rewrite HF, HL.
      destruct H.
      destruct (Z.ltb_spec (w rb) (r rb)); destruct (Z.ltb_spec (r rb + i) (size rb));
        intros; rewrite (mod_back _ (size rb)) by lia; zcases; try lia; reflexivity.
    + rewrite zget_app2 by lia. rewrite Hbl.
      rewrite zget_firstn by lia.
      rewrite HLn, HF in *.
      rewrite (mod_once (r rb + i) (size rb)) in * by (destruct H; lia).
      revert Hj Hn Hge Hi. rewrite HL.
      destruct H.
      destruct (Z.ltb_spec (w rb) (r rb)); destruct (Z.ltb_spec (r rb + i) (size rb));
        intros; rewrite (mod_back _ (size rb)) by lia; zcases; try lia; f_equal; lia.
Qed.

Lemma Read_Bytes (rb : RingBuffer) (p : list byte) :
  wf rb -> 0 < Length rb -> 0 < len p ->
  exists rb' bs,
    Bytes rb = Some (rb, bs)
    /\ Read rb p
       = Some (rb',
               firstn (Z.to_nat (Z.min (Length rb) (len p))) bs
                 ++ skipn (Z.to_nat (Z.min (Length rb) (len p))) p,
               Z.min (Length rb) (len p), None)
    /\ wf rb'
    /\ buf rb' = buf rb /\ size rb' = size rb /\ w rb' = w rb
    /\ r rb' = (r rb + Z.min (Length rb) (len p)) mod size rb
    /\ isFull rb' = false
    /\ Length rb' = Length rb - Z.min (Length rb) (len p)
    /\ Bytes rb' = Some (rb', skipn (Z.to_nat (Z.min (Length rb) (len p))) bs).
Proof.
  intros H HL0 Hp.
  destruct (Read_effect rb p H HL0 Hp)
    as (rb' & p' & HR & Hwf' & Hbuf & Hsz & Hw' & Hr' & Hf' & Hpl & Hpg).
  destruct (Bytes_effect rb H) as (bs & HB & Hbl & Hbg).
  destruct (Bytes_effect rb' Hwf') as (bs' & HB' & Hbl' & Hbg').
  destruct (Length_wf rb H) as [HL HLr].
  destruct (Length_wf rb' Hwf') as [HL' _]. rewrite Hf' in HL'.
  set (n := Z.min (Length rb) (len p)) in *.
  assert (Hn : 0 < n <= Length rb /\ n <= len p) by (subst n; lia).
  clearbody n.
  assert (HLn : Length rb' = Length rb - n).
  { rewrite HL', Hr', Hw', Hsz.
    rewrite (mod_once (r rb + n) (size rb)) by (destruct H; lia).
    revert Hn. rewrite HL. destruct H as [Hs Hb Hr Hw Hf].
    destruct (isFull rb); [rewrite (Hf eq_refl) |]; zcases; lia. }
  exists rb', bs. split; [assumption |]. split.
  - rewrite HR. do 4 f_equal.
    apply zget_ext.
    + rewrite len_app, len_firstn, len_skipn by lia. lia.
    + intros i Hi. rewrite Hpl in Hi. rewrite Hpg by lia.
      rewrite zget_firstn_app by lia.
      destruct (Z.ltb_spec i n).
      * rewrite Hbg by lia. reflexivity.
      * rewrite zget_skipn by lia. f_equal. lia.
  - repeat (split; [assumption |]).
    rewrite HB'. do 2 f_equal.
    apply zget_ext.
    + rewrite len_skipn by lia. lia.
    + intros i Hi. rewrite Hbl' in Hi.
      rewrite Hbg' by lia. rewrite zget_skipn by lia. rewrite Hbg by lia.
      rewrite Hbuf, Hsz, Hr'. rewrite Z.add_mod_idemp_l by (destruct H; lia).
      f_equal. f_equal. lia.
Qed.

(** A buffer without unread bytes is observed as the empty slice. *)
Lemma Bytes_empty (rb : RingBuffer) :
  wf rb -> Length rb = 0 -> Bytes rb = Some (rb, []).
Proof.
  intros H HL. destruct (Bytes_effect rb H) as (bs & HB & Hbl & _).
  rewrite HB. rewrite (len_nil_inv bs) by lia. reflexivity.
Qed.

Lemma IsEmpty_Length (rb : RingBuffer) :
  wf rb -> (IsEmpty rb = true <-> Length rb = 0).
Proof.
  intros H. destruct (Length_wf rb H) as [HL _]. rewrite HL.
  destruct H as [Hs Hb Hr Hw Hf]. unfold IsEmpty.
  destruct (isFull rb); cbn [negb andb].
  - split; [discriminate | lia].
  - zcases; split; intros; try lia; try discriminate; reflexivity.
Qed.

Lemma isFull_Free (rb : RingBuffer) :
  wf rb -> (isFull rb = true <-> Free rb = 0).
Proof.
  intros H. rewrite (Free_wf rb H). destruct (Length_wf rb H) as [HL _]. rewrite HL.
  destruct H as [Hs Hb Hr Hw Hf].
  destruct (isFull rb).
  - split; [lia | reflexivity].
  - zcases; split; intros; try lia; discriminate.
Qed.

(** ** Invariants of the reachable states *)

Ltac break_step :=
  repeat match goal with
         | H : Some _ = Some _ |- _ => inversion H; subst; clear H
         | H : None = Some _ |- _ => discriminate H
         | H : context [bind ?m _] |- _ =>
             no_if m; destruct m eqn:?; cbn [bind] in H
         | H : context [match ?x with pair _ _ => _ end] |- _ => destruct x
         | H : context [if ?c then _ else _] |- _ =>
             no_if c; destruct c eqn:?
         end;
  repeat (simpl_rb;
          match goal with
          | |- context [if ?c then _ else _] => no_if c; destruct c eqn:?
          end);
  simpl_rb.

Lemma step_size (o : op) (rb rb' : RingBuffer) :
  step o rb = Some rb' -> size rb' = size rb.
Proof.
  destruct o; cbn [step]; unfold WriteString, Read, ReadByte, Write, WriteByte, Bytes, Reset;
    intros H; break_step; reflexivity.
Qed.

Ltac bool_hyps :=
  rewrite ?Z.gtb_ltb, ?Z.geb_leb in *;
  repeat match goal with
         | H : (_ && _) = true |- _ => apply andb_true_iff in H; destruct H
         | H : (_ <? _) = true |- _ => apply Z.ltb_lt in H
         | H : (_ <? _) = false |- _ => apply Z.ltb_ge in H
         | H : (_ <=? _) = true |- _ => apply Z.leb_le in H
         | H : (_ <=? _) = false |- _ => apply Z.leb_gt in H
         | H : (_ =? _) = true |- _ => apply Z.eqb_eq in H
         | H : (_ =? _) = false |- _ => apply Z.eqb_neq in H
         | H : negb _ = true |- _ => apply negb_true_iff in H
         | H : negb _ = false |- _ => apply negb_false_iff in H
         end.

(** The full flag is only ever raised on coincident cursors; this needs no
    assumption on the capacity. *)
Lemma step_full (o : op) (rb rb' : RingBuffer) :
  (isFull rb = true -> w rb = r rb) ->
  step o rb = Some rb' ->
  isFull rb' = true -> w rb' = r rb'.
Proof.
  intros Hinv H.
  destruct o; cbn [step] in H;
    unfold WriteString, Read, ReadByte, Write, WriteByte, Bytes, Reset in H;
    break_step; intros F'; simpl_rb; bool_hyps;
    try discriminate; try congruence; try lia;
    try (specialize (Hinv F'); lia);
    try match goal with
        | H : (w ?x =? r ?x) && isFull ?x = false |- _ =>
            rewrite F', (Hinv F'), Z.eqb_refl in H; discriminate H
        end.
Qed.

Lemma New_fresh (sz : Z) (rb : RingBuffer) :
  New sz = Some rb -> isFull rb = false /\ r rb = 0 /\ w rb = 0 /\ size rb = sz
                      /\ len (buf rb) = sz /\ 0 <= sz.
Proof.
  unfold New, make. destruct (Z.ltb_spec sz 0); cbn [bind]; [discriminate |].
  intros E. inversion E. cbn. repeat split; try lia.
  unfold len. rewrite repeat_length. lia.
Qed.

(** From a well-formed buffer no call panics, and the buffer stays
    well-formed. *)
Lemma step_wf (o : op) (rb : RingBuffer) :
  wf rb -> exists rb', step o rb = Some rb' /\ wf rb'.
Proof.
  intros H.
  assert (HLr := proj2 (Length_wf rb H)).
  assert (Hread : forall p, exists rb' p' n e, Read rb p = Some (rb', p', n, e) /\ wf rb').
  { intros p. destruct (Z.eqb_spec (len p) 0) as [E | E].
    - unfold Read. rewrite E. cbn. eauto 6.
    - destruct (Z.eqb_spec (Length rb) 0) as [E0 | E0].
      + apply (IsEmpty_Length rb H) in E0. unfold IsEmpty in E0.
        unfold Read. rewrite (proj2 (Z.eqb_neq _ _) E).
        rewrite andb_comm, E0. eauto 6.
      + pose proof (len_nonneg p).
        destruct (Read_effect rb p H) as (rb' & p' & HR & Hwf' & _); [lia | lia |].
        eauto 6. }
  assert (Hwrite : forall p, exists rb' n e, Write rb p = Some (rb', n, e) /\ wf rb').
  { intros p. destruct (Z.eqb_spec (len p) 0) as [E | E].
    - unfold Write. rewrite E. cbn. eauto 6.
    - destruct (isFull rb) eqn:F.
      + unfold Write. rewrite (proj2 (Z.eqb_neq _ _) E), F. eauto 6.
      + pose proof (len_nonneg p).
        destruct (Write_effect rb p H F) as (rb' & HW & Hwf' & _); [lia |].
        eauto 6. }
  destruct o; cbn [step].
  - destruct (Hread p) as (rb' & p' & n & e & HR & Hwf'). rewrite HR. cbn. eauto.
  - destruct (Z.eqb_spec (Length rb) 0) as [E0 | E0].
    + apply (IsEmpty_Length rb H) in E0. unfold IsEmpty in E0.
      unfold ReadByte. rewrite andb_comm, E0. cbn. eauto.
    + destruct (ReadByte_effect rb H) as (rb' & HR & Hwf' & _); [lia |].
      rewrite HR. cbn. eauto.
  - destruct (Hwrite p) as (rb' & n & e & HW & Hwf'). rewrite HW. cbn. eauto.
  - destruct (isFull rb) eqn:F.
    + unfold WriteByte. rewrite F, (wf_full rb H F), Z.eqb_refl. cbn. eauto.
    + destruct (WriteByte_effect rb c H F) as (rb' & HW & Hwf' & _).
      rewrite HW. cbn. eauto.
  - unfold WriteString.
    destruct (Hwrite (String.list_byte_of_string s)) as (rb' & n & e & HW & Hwf').
    rewrite HW. cbn. eauto.
  - destruct (Bytes_effect rb H) as (bs & HB & _). rewrite HB. cbn. eauto.
  - eauto.
  - eauto.
  - eauto.
  - eauto.
  - eauto.
  - eexists; split; [reflexivity |]. destruct H. constructor; cbn; auto; try lia.
Qed.

Lemma reachable_wf (rb : RingBuffer) :
  reachable rb -> 0 < size rb <= max_cap -> wf rb.
Proof.
  induction 1 as [sz rb HN | o rb rb' Hreach IH Hstep]; intros Hsz.
  - destruct (New_fresh sz rb HN) as (F & Hr & Hw & Hs & Hb & _).
    constructor; try lia; rewrite F; discriminate.
  - rewrite (step_size o rb rb' Hstep) in Hsz.
    destruct (step_wf o rb (IH Hsz)) as (rb'' & Hstep' & Hwf).
    congruence.
Qed.

Lemma reachable_full (rb : RingBuffer) :
  reachable rb -> isFull rb = true -> w rb = r rb.
Proof.
  induction 1 as [sz rb HN | o rb rb' Hreach IH Hstep].
  - destruct (New_fresh sz rb HN) as (F & _). rewrite F. discriminate.
  - exact (step_full o rb rb' IH Hstep).
Qed.

(** * The claims of the specification *)

(** Well-formedness of a buffer given by its fields. *)
Ltac wf_concrete :=
  constructor; cbn; unfold max_cap;
  first [lia | discriminate | reflexivity | intros _; lia].

(** ** Round trip *)

(** C1. On an empty buffer, wherever its cursors are, writing [k] bytes with
    [0 < k <= capacity] and then reading into a destination of length [k]
    gives back exactly the written bytes, in order; both calls report no
    error and the count [k]. *)
Theorem write_then_read_roundtrip (rb : RingBuffer) (p d : list byte) :
  wf rb -> IsEmpty rb = true ->
  0 < len p <= Capacity rb -> len d = len p ->
  exists rb1 rb2,
    Write rb p = Some (rb1, len p, None)
    /\ Read rb1 d = Some (rb2, p, len p, None).
Proof.
  intros H HE Hk Hd. unfold Capacity in Hk.
  pose proof (proj1 (IsEmpty_Length rb H) HE) as HL.
  assert (F : isFull rb = false).
  { unfold IsEmpty in HE. destruct (isFull rb); [discriminate | reflexivity]. }
  pose proof (Free_wf rb H) as HF. rewrite HL in HF.
  destruct (Write_Bytes rb p H F) as
    (rb1 & bs & HW & Hwf1 & _ & _ & _ & _ & HL1 & HB & HB1); [lia |].
  rewrite (Bytes_empty rb H HL) in HB. inversion HB; subst bs. clear HB.
  replace (Z.min (len p) (Free rb)) with (len p) in * by lia.
  replace (len p >? Free rb) with false in HW
    by (symmetry; rewrite Z.gtb_ltb; apply Z.ltb_ge; lia).
  assert (Ep : firstn (Z.to_nat (len p)) p = p) by (apply firstn_all2; unfold len; lia).
  cbn [app] in HB1. rewrite Ep in HB1.
  destruct (Read_Bytes rb1 d Hwf1) as (rb2 & bs1 & HB1' & HR & _); [lia | lia |].
  rewrite HB1 in HB1'. inversion HB1'; subst bs1. clear HB1'.
  replace (Z.min (Length rb1) (len d)) with (len p) in HR by lia.
  rewrite Ep in HR.
  rewrite skipn_all2, app_nil_r in HR by (unfold len in *; lia).
  exists rb1, rb2. split; assumption.
Qed.

Lemma write_then_read_roundtrip_witness :
  let rb := mkRingBuffer [x00; x00; x00; x00] 4 3 3 false in
  let p := [x61; x62; x63] in
  let d := [x00; x00; x00] in
  exists rb1 rb2,
    Write rb p = Some (rb1, len p, None)
    /\ Read rb1 d = Some (rb2, p, len p, None).
Proof.
  intros rb p d.
  apply (write_then_read_roundtrip rb p d);
    [wf_concrete | reflexivity | cbn; lia | reflexivity].
Defined.

(** ** The wrap-around scenario *)

(** C2, as stated, fails: after writing 3 bytes and reading 2, one byte is
    left and 3 slots are free, so the second [Write] of 3 bytes is accepted
    whole and without error; the claimed result (2 bytes and
    [ErrTooManyDataToWrite]) is not what the calls return. *)
Lemma wrap_scenario_second_write_is_whole :
  wrap_scenario [x61; x62; x63] [x00; x00] [x64; x65; x66]
  = Some (3, None, (2, None), (3, None), [x63; x64; x65; x66])
  /\ wrap_scenario [x61; x62; x63] [x00; x00] [x64; x65; x66]
     <> Some (3, None, (2, None), (2, Some ErrTooManyDataToWrite), [x62; x63; x64; x65]).
Proof.
  split; [vm_compute; reflexivity | vm_compute; discriminate].
Qed.

(** C2, amended.  On a fresh buffer of capacity 4, writing 3 bytes and
    reading 2 leaves 1 byte and 3 free slots; the second [Write] of 3 bytes
    then straddles the end of the storage, accepts all 3 bytes and reports no
    error, and [Bytes] returns the retained byte followed by the 3 new
    bytes. *)
Theorem wrap_scenario_result (a b c u v d e f : byte) :
  wrap_scenario [a; b; c] [u; v] [d; e; f]
  = Some (3, None, (2, None), (3, None), [c; d; e; f]).
Proof. vm_compute. reflexivity. Qed.

(** ** Bulk write *)

(** C3. On a buffer that is not full and for a non-empty input [p]: when
    [len p] exceeds the free space, [Write] appends exactly the first
    [Free rb] bytes of [p] to the unread bytes and returns that count with
    [ErrTooManyDataToWrite]; otherwise it appends all of [p] and returns
    [len p] with no error. *)
Theorem Write_partial_or_whole (rb : RingBuffer) (p : list byte) :
  wf rb -> IsFull rb = false -> p <> [] ->
  exists rb' bs,
    Bytes rb = Some (rb, bs)
    /\ (Free rb < len p ->
        Write rb p = Some (rb', Free rb, Some ErrTooManyDataToWrite)
        /\ Bytes rb' = Some (rb', bs ++ firstn (Z.to_nat (Free rb)) p))
    /\ (len p <= Free rb ->
        Write rb p = Some (rb', len p, None)
        /\ Bytes rb' = Some (rb', bs ++ p)).
Proof.
  intros H F Hp. unfold IsFull in F.
  assert (Hlen : 0 < len p).
  { destruct p; [congruence | rewrite len_cons; pose proof (len_nonneg p); lia]. }
  destruct (Write_Bytes rb p H F Hlen) as (rb' & bs & HW & _ & _ & _ & _ & _ & _ & HB & HB').
  exists rb', bs. split; [assumption |]. split; intros Hcmp.
  - replace (Z.min (len p) (Free rb)) with (Free rb) in * by lia.
    replace (len p >? Free rb) with true in HW
      by (symmetry; rewrite Z.gtb_ltb; apply Z.ltb_lt; lia).
    split; assumption.
  - replace (Z.min (len p) (Free rb)) with (len p) in * by lia.
    replace (len p >? Free rb) with false in HW
      by (symmetry; rewrite Z.gtb_ltb; apply Z.ltb_ge; lia).
    rewrite firstn_all2 in HB' by (unfold len; lia).
    split; assumption.
Qed.

Lemma Write_partial_or_whole_witness :
  let rb := mkRingBuffer [x61; x62; x63; x00] 4 2 3 false in
  let p := [x64; x65; x66; x67] in
  exists rb' bs,
    Bytes rb = Some (rb, bs)
    /\ (Free rb < len p ->
        Write rb p = Some (rb', Free rb, Some ErrTooManyDataToWrite)
        /\ Bytes rb' = Some (rb', bs ++ firstn (Z.to_nat (Free rb)) p))
    /\ (len p <= Free rb ->
        Write rb p = Some (rb', len p, None)
        /\ Bytes rb' = Some (rb', bs ++ p)).
Proof.
  intros rb p.
  apply (Write_partial_or_whole rb p); [wf_concrete | reflexivity | discriminate].
Defined.

(** ** Construction *)

(** C5, as stated, fails: [New] has no check of its argument, and a capacity
    of 0 is accepted; the result is a buffer over an empty storage. *)
Lemma New_zero_is_accepted :
  New 0 = Some (mkRingBuffer [] 0 0 0 false).
Proof. reflexivity. Qed.

(** C5, amended.  [New] succeeds for every capacity that is not negative,
    0 included, and returns an empty buffer of that capacity with both
    cursors at 0; it fails exactly on a negative capacity, by the panic of
    the allocation. *)
Theorem New_fails_only_on_negative (sz : Z) :
  (New sz = None <-> sz < 0)
  /\ (forall rb, New sz = Some rb ->
        Capacity rb = sz /\ len (buf rb) = sz
        /\ r rb = 0 /\ w rb = 0 /\ IsFull rb = false /\ IsEmpty rb = true).
Proof.
  split.
  - unfold New, make. destruct (Z.ltb_spec sz 0); cbn [bind]; split;
      intros; try lia; try reflexivity; discriminate.
  - intros rb HN. destruct (New_fresh sz rb HN) as (F & Hr & Hw & Hs & Hb & _).
    unfold Capacity, IsFull, IsEmpty. rewrite F, Hr, Hw. cbn. auto 10.
Qed.

(** ** Bulk read *)

(** C6. On a buffer that is not empty and for a non-empty destination [p],
    [Read] copies the [min (Length rb) (len p)] oldest unread bytes to the
    front of [p], leaves the rest of [p] as it was, removes these bytes from
    the buffer, advances the read cursor by that count modulo the capacity,
    and returns the count with no error, also when it is less than
    [len p]. *)
Theorem Read_copies_min (rb : RingBuffer) (p : list byte) :
  wf rb -> IsEmpty rb = false -> p <> [] ->
  exists rb' bs,
    Bytes rb = Some (rb, bs)
    /\ Read rb p
       = Some (rb',
               firstn (Z.to_nat (Z.min (Length rb) (len p))) bs
                 ++ skipn (Z.to_nat (Z.min (Length rb) (len p))) p,
               Z.min (Length rb) (len p), None)
    /\ r rb' = (r rb + Z.min (Length rb) (len p)) mod Capacity rb
    /\ w rb' = w rb
    /\ Length rb' = Length rb - Z.min (Length rb) (len p)
    /\ Bytes rb' = Some (rb', skipn (Z.to_nat (Z.min (Length rb) (len p))) bs).
Proof.
  intros H HE Hp.
  assert (Hlen : 0 < len p).
  { destruct p; [congruence | rewrite len_cons; pose proof (len_nonneg p); lia]. }
  assert (HL : 0 < Length rb).
  { pose proof (proj2 (Length_wf rb H)).
    destruct (Z.eqb_spec (Length rb) 0) as [E | E]; [| lia].
    apply (IsEmpty_Length rb H) in E. congruence. }
  destruct (Read_Bytes rb p H HL Hlen)
    as (rb' & bs & HB & HR & _ & _ & _ & Hw' & Hr' & _ & HL' & HB').
  exists rb', bs. unfold Capacity. repeat (split; [assumption |]). assumption.
Qed.

Lemma Read_copies_min_witness :
  let rb := mkRingBuffer [x63; x64; x61; x62] 4 2 2 true in
  let p := [x00; x00; x00; x00; x00; x00] in
  exists rb' bs,
    Bytes rb = Some (rb, bs)
    /\ Read rb p
       = Some (rb',
               firstn (Z.to_nat (Z.min (Length rb) (len p))) bs
                 ++ skipn (Z.to_nat (Z.min (Length rb) (len p))) p,
               Z.min (Length rb) (len p), None)
    /\ r rb' = (r rb + Z.min (Length rb) (len p)) mod Capacity rb
    /\ w rb' = w rb
    /\ Length rb' = Length rb - Z.min (Length rb) (len p)
    /\ Bytes rb' = Some (rb', skipn (Z.to_nat (Z.min (Length rb) (len p))) bs).
Proof.
  intros rb p.
  apply (Read_copies_min rb p); [wf_concrete | reflexivity | discriminate].
Defined.

(** ** Errors of empty and full buffers *)

Lemma len_pos (p : list byte) : p <> [] -> 0 < len p.
Proof.
  destruct p; [congruence | rewrite len_cons; pose proof (len_nonneg p); lia].
Qed.

(** C4. [Read] (non-empty destination) and [ReadByte] return [ErrIsEmpty]
    exactly when no unread byte is stored; [Write] (non-empty input) and
    [WriteByte] return [ErrIsFull] exactly when no slot is free; a call that
    returns one of these errors leaves the buffer (and the destination) as it
    was and transfers no byte. *)
Theorem empty_and_full_errors (rb : RingBuffer) :
  wf rb ->
  (forall p, p <> [] ->
     exists rb' p' n e,
       Read rb p = Some (rb', p', n, e)
       /\ (e = Some ErrIsEmpty <-> Length rb = 0)
       /\ (e = Some ErrIsEmpty -> rb' = rb /\ p' = p /\ n = 0))
  /\ (exists rb' b e,
        ReadByte rb = Some (rb', b, e)
        /\ (e = Some ErrIsEmpty <-> Length rb = 0)
        /\ (e = Some ErrIsEmpty -> rb' = rb))
  /\ (forall p, p <> [] ->
        exists rb' n e,
          Write rb p = Some (rb', n, e)
          /\ (e = Some ErrIsFull <-> Free rb = 0)
          /\ (e = Some ErrIsFull -> rb' = rb /\ n = 0))
  /\ (forall c,
        exists rb' e,
          WriteByte rb c = Some (rb', e)
          /\ (e = Some ErrIsFull <-> Free rb = 0)
          /\ (e = Some ErrIsFull -> rb' = rb)).
Proof.
  intros H.
  pose proof (proj2 (Length_wf rb H)) as HLr.
  pose proof (IsEmpty_Length rb H) as HE. unfold IsEmpty in HE.
  pose proof (isFull_Free rb H) as HFu.
  assert (Hempty : Length rb = 0 -> (w rb =? r rb) && negb (isFull rb) = true).
  { intros E. rewrite andb_comm. apply HE. assumption. }
  repeat split.
  - (* Read *)
    intros p Hp. apply len_pos in Hp.
    destruct (Z.eqb_spec (Length rb) 0) as [E | E].
    + exists rb, p, 0, (Some ErrIsEmpty). unfold Read.
      rewrite (proj2 (Z.eqb_neq (len p) 0)) by lia. rewrite (Hempty E).
      repeat split; auto.
    + destruct (Read_effect rb p H) as (rb' & p' & HR & _); [lia | lia |].
      exists rb', p', (Z.min (Length rb) (len p)), None.
      split; [assumption |]. split; [split; intros; [discriminate | lia] | discriminate].
  - (* ReadByte *)
    destruct (Z.eqb_spec (Length rb) 0) as [E | E].
    + exists rb, x00, (Some ErrIsEmpty). unfold ReadByte. rewrite (Hempty E).
      repeat split; auto.
    + destruct (ReadByte_effect rb H) as (rb' & HR & _); [lia |].
      exists rb', (zget (buf rb) (r rb)), None.
      split; [assumption |]. split; [split; intros; [discriminate | lia] | discriminate].
  - (* Write *)
    intros p Hp. apply len_pos in Hp.
    destruct (isFull rb) eqn:F.
    + exists rb, 0, (Some ErrIsFull). unfold Write.
      rewrite (proj2 (Z.eqb_neq (len p) 0)) by lia. rewrite F.
      repeat split; auto. intros _. apply HFu. reflexivity.
    + destruct (Write_effect rb p H F Hp) as (rb' & HW & _).
      do 3 eexists. split; [exact HW |].
      assert (Hne : Free rb <> 0).
      { intros E. apply HFu in E. discriminate. }
      destruct (len p >? Free rb);
        (split; [split; intros; [discriminate | lia] | discriminate]).
  - (* WriteByte *)
    intros c. destruct (isFull rb) eqn:F.
    + exists rb, (Some ErrIsFull). unfold WriteByte.
      rewrite F, (wf_full rb H F), Z.eqb_refl.
      repeat split; auto. intros _. apply HFu. reflexivity.
    + destruct (WriteByte_effect rb c H F) as (rb' & HW & _).
      exists rb', None. split; [exact HW |].
      assert (Hne : Free rb <> 0).
      { intros E. apply HFu in E. discriminate. }
      split; [split; intros; [discriminate | lia] | discriminate].
Qed.

Lemma empty_and_full_errors_witness :
  let rb := mkRingBuffer [x61; x62] 2 1 1 true in
  (forall p, p <> [] ->
     exists rb' p' n e,
       Read rb p = Some (rb', p', n, e)
       /\ (e = Some ErrIsEmpty <-> Length rb = 0)
       /\ (e = Some ErrIsEmpty -> rb' = rb /\ p' = p /\ n = 0))
  /\ (exists rb' b e,
        ReadByte rb = Some (rb', b, e)
        /\ (e = Some ErrIsEmpty <-> Length rb = 0)
        /\ (e = Some ErrIsEmpty -> rb' = rb))
  /\ (forall p, p <> [] ->
        exists rb' n e,
          Write rb p = Some (rb', n, e)
          /\ (e = Some ErrIsFull <-> Free rb = 0)
          /\ (e = Some ErrIsFull -> rb' = rb /\ n = 0))
  /\ (forall c,
        exists rb' e,
          WriteByte rb c = Some (rb', e)
          /\ (e = Some ErrIsFull <-> Free rb = 0)
          /\ (e = Some ErrIsFull -> rb' = rb)).
Proof.
  intros rb. apply (empty_and_full_errors rb). wf_concrete.
Defined.

(** ** Cursor range and occupancy *)

Lemma Length_plus_Free (rb : RingBuffer) :
  wf rb -> Length rb + Free rb = Capacity rb.
Proof.
  intros H. rewrite (Free_wf rb H). unfold Capacity. lia.
Qed.

(** C7. On a buffer of positive capacity, in any state reached from [New],
    every public call returns (it does not panic), and after it both cursors
    lie in [[0, capacity)] and [Length() + Free() = Capacity()]. *)
Theorem cursors_in_range_after_call (rb : RingBuffer) (o : op) :
  reachable rb -> 0 < Capacity rb <= max_cap ->
  exists rb',
    step o rb = Some rb'
    /\ 0 <= r rb' < Capacity rb'
    /\ 0 <= w rb' < Capacity rb'
    /\ Length rb' + Free rb' = Capacity rb'.
Proof.
  intros Hreach Hcap.
  destruct (step_wf o rb (reachable_wf rb Hreach Hcap)) as (rb' & Hstep & Hwf).
  exists rb'. split; [assumption |].
  split; [apply (wf_r rb' Hwf) |].
  split; [apply (wf_w rb' Hwf) |].
  apply Length_plus_Free. assumption.
Qed.

Lemma cursors_in_range_after_call_witness :
  let rb := mkRingBuffer [x00; x00; x00; x00] 4 0 0 false in
  let o := OpWrite [x61; x62; x63; x64; x65] in
  exists rb',
    step o rb = Some rb'
    /\ 0 <= r rb' < Capacity rb'
    /\ 0 <= w rb' < Capacity rb'
    /\ Length rb' + Free rb' = Capacity rb'.
Proof.
  intros rb o.
  apply (cursors_in_range_after_call rb o).
  - apply reach_New with (sz := 4). reflexivity.
  - cbn. unfold max_cap. lia.
Defined.

(** ** The full flag *)

Lemma WriteByte_Length (rb rb' : RingBuffer) (c : byte) :
  wf rb -> isFull rb = false -> WriteByte rb c = Some (rb', None) ->
  wf rb' /\ Length rb' = Length rb + 1.
Proof.
  intros H F HW.
  destruct (WriteByte_effect rb c H F) as (rb1 & HW1 & Hwf1 & Hsz & Hr1 & Hw1 & Hf1 & _).
  rewrite HW1 in HW. inversion HW; subst rb1. clear HW.
  split; [assumption |].
  destruct (Length_wf rb' Hwf1) as [HL1 _].
  destruct (Length_wf rb H) as [HL HLr]. rewrite F in HL.
  rewrite HL1, Hf1, Hr1, Hw1, Hsz, (Free_wf rb H).
  rewrite (mod_once (w rb + 1) (size rb)) by (destruct H; lia).
  rewrite HL. destruct H. zcases; lia.
Qed.

(** C8, as stated, fails on a call that is rejected: on a full buffer [Write]
    returns [ErrIsFull] without moving the write cursor, and [isFull] is true
    after the call. *)
Lemma rejected_Write_keeps_full_flag :
  let rb := mkRingBuffer [x61] 1 0 0 true in
  wf rb
  /\ Write rb [x62] = Some (rb, 0, Some ErrIsFull)
  /\ isFull rb = true
  /\ ~ (isFull rb = true <-> 0 < 0 /\ w rb = r rb).
Proof.
  cbv zeta. split; [wf_concrete |]. split; [reflexivity |]. split; [reflexivity |].
  intros [Hx _]. destruct (Hx eq_refl) as [Hlt _]. lia.
Qed.

(** C8, amended.  After a [Write] or [WriteByte] call that accepts at least
    one byte, [isFull] is true exactly when the write cursor has met the read
    cursor, and the buffer then holds [Capacity] bytes; a [Write] or
    [WriteByte] call that accepts no byte leaves the buffer, and so [isFull],
    as it was.  After a [Read] or [ReadByte] call that consumes at least one
    byte, [isFull] is false. *)
Theorem full_flag_after_call (rb : RingBuffer) :
  wf rb ->
  (forall p rb' n e,
     Write rb p = Some (rb', n, e) ->
     (0 < n -> (isFull rb' = true <-> w rb' = r rb')
               /\ (isFull rb' = true -> Length rb' = Capacity rb'))
     /\ (n = 0 -> rb' = rb))
  /\ (forall c rb' e,
        WriteByte rb c = Some (rb', e) ->
        (e = None -> (isFull rb' = true <-> w rb' = r rb')
                     /\ (isFull rb' = true -> Length rb' = Capacity rb'))
        /\ (e <> None -> rb' = rb))
  /\ (forall p rb' p' n e,
        Read rb p = Some (rb', p', n, e) -> 0 < n -> isFull rb' = false)
  /\ (forall rb' b e,
        ReadByte rb = Some (rb', b, e) -> e = None -> isFull rb' = false).
Proof.
  intros H.
  pose proof (proj2 (Length_wf rb H)) as HLr.
  assert (Hfull_iff : forall rb', wf rb' -> 0 < Length rb' ->
             (isFull rb' = true <-> w rb' = r rb')
             /\ (isFull rb' = true -> Length rb' = Capacity rb')).
  { intros rb' Hwf' Hpos. destruct (Length_wf rb' Hwf') as [HL' _].
    unfold Capacity. destruct (isFull rb') eqn:F'.
    - split; [split; [intros _; apply (wf_full rb' Hwf' F') | reflexivity] | auto].
    - split; [split; [discriminate |] | discriminate].
      intros E. revert Hpos. rewrite HL', E, Z.ltb_irrefl. lia. }
  split; [| split; [| split]].
  - (* Write *)
    intros p rb' n e HW.
    destruct (Z.eqb_spec (len p) 0) as [E | E].
    { unfold Write in HW. rewrite E in HW. cbn in HW. inversion HW; subst.
      split; [lia | reflexivity]. }
    destruct (isFull rb) eqn:F.
    { unfold Write in HW. rewrite (proj2 (Z.eqb_neq _ _) E), F in HW.
      inversion HW; subst. split; [lia | reflexivity]. }
    pose proof (len_nonneg p) as Hp.
    destruct (Write_Bytes rb p H F) as (rb1 & bs & HW1 & Hwf1 & _ & _ & _ & _ & HL1 & _);
      [lia |].
    rewrite HW1 in HW. inversion HW; subst. clear HW.
    assert (HLs : Length rb < size rb).
    { destruct (Length_wf rb H) as [HL _]. rewrite HL, F. destruct H. zcases; lia. }
    rewrite (Free_wf rb H) in *.
    split; [intros _; apply Hfull_iff; [assumption | lia] | lia].
  - (* WriteByte *)
    intros c rb' e HW.
    destruct (isFull rb) eqn:F.
    { unfold WriteByte in HW. rewrite F, (wf_full rb H F), Z.eqb_refl in HW.
      inversion HW; subst. split; [discriminate | reflexivity]. }
    destruct (WriteByte_effect rb c H F) as (rb1 & HW1 & _).
    rewrite HW1 in HW. inversion HW; subst. clear HW.
    destruct (WriteByte_Length rb rb' c H F HW1) as [Hwf1 HL1].
    split; [intros _; apply Hfull_iff; [assumption | lia] | congruence].
  - (* Read *)
    intros p rb' p' n e HR Hn.
    destruct (Z.eqb_spec (len p) 0) as [E | E].
    { unfold Read in HR. rewrite E in HR. cbn in HR. inversion HR; subst. lia. }
    destruct (Z.eqb_spec (Length rb) 0) as [E0 | E0].
    { apply (IsEmpty_Length rb H) in E0. unfold IsEmpty in E0.
      unfold Read in HR. rewrite (proj2 (Z.eqb_neq _ _) E), andb_comm, E0 in HR.
      inversion HR; subst. lia. }
    pose proof (len_nonneg p) as Hp.
    destruct (Read_effect rb p H) as (rb1 & p1 & HR1 & _ & _ & _ & _ & _ & Hf1 & _);
      [lia | lia |].
    rewrite HR1 in HR. inversion HR; subst. assumption.
  - (* ReadByte *)
    intros rb' b e HR He.
    destruct (Z.eqb_spec (Length rb) 0) as [E0 | E0].
    { apply (IsEmpty_Length rb H) in E0. unfold IsEmpty in E0.
      unfold ReadByte in HR. rewrite andb_comm, E0 in HR.
      inversion HR; subst. discriminate. }
    destruct (ReadByte_effect rb H) as (rb1 & HR1 & _ & _ & _ & _ & _ & Hf1); [lia |].
    rewrite HR1 in HR. inversion HR; subst. assumption.
Qed.

Lemma full_flag_after_call_witness :
  let rb := mkRingBuffer [x61; x62; x00] 3 0 2 false in
  (forall p rb' n e,
     Write rb p = Some (rb', n, e) ->
     (0 < n -> (isFull rb' = true <-> w rb' = r rb')
               /\ (isFull rb' = true -> Length rb' = Capacity rb'))
     /\ (n = 0 -> rb' = rb))
  /\ (forall c rb' e,
        WriteByte rb c = Some (rb', e) ->
        (e = None -> (isFull rb' = true <-> w rb' = r rb')
                     /\ (isFull rb' = true -> Length rb' = Capacity rb'))
        /\ (e <> None -> rb' = rb))
  /\ (forall p rb' p' n e,
        Read rb p = Some (rb', p', n, e) -> 0 < n -> isFull rb' = false)
  /\ (forall rb' b e,
        ReadByte rb = Some (rb', b, e) -> e = None -> isFull rb' = false).
Proof.
  intros rb. apply (full_flag_after_call rb). wf_concrete.
Defined.

(** ** Peek *)

(** C9. [Bytes] never fails and returns the buffer as it was.  The slice it
    returns holds the [Length] unread bytes, oldest first: byte [i] is the
    stored byte at index [(r + i) mod capacity], so the order is kept across
    the end of the storage; it is the empty slice when the buffer is empty,
    and it is exactly what a [Read] of that many bytes delivers. *)
Theorem Bytes_snapshot (rb : RingBuffer) :
  wf rb ->
  exists bs,
    Bytes rb = Some (rb, bs)
    /\ len bs = Length rb
    /\ (forall i, 0 <= i < Length rb ->
          zget bs i = zget (buf rb) ((r rb + i) mod Capacity rb))
    /\ (IsEmpty rb = true -> bs = [])
    /\ (forall d, bs <> [] -> len d = len bs ->
          exists rb', Read rb d = Some (rb', bs, len bs, None)).
Proof.
  intros H. destruct (Bytes_effect rb H) as (bs & HB & Hbl & Hbg).
  exists bs. unfold Capacity. repeat (split; [assumption |]). split.
  - intros HE. apply (IsEmpty_Length rb H) in HE.
    apply len_nil_inv. lia.
  - intros d Hne Hd. apply len_pos in Hne.
    destruct (Read_Bytes rb d H) as (rb' & bs0 & HB0 & HR & _); [lia | lia |].
    rewrite HB in HB0. inversion HB0; subst bs0. clear HB0.
    exists rb'. rewrite HR.
    replace (Z.min (Length rb) (len d)) with (len bs) by lia.
    rewrite firstn_all2 by (unfold len; lia).
    rewrite skipn_all2 by (unfold len in *; lia).
    rewrite app_nil_r. reflexivity.
Qed.

Lemma Bytes_snapshot_witness :
  let rb := mkRingBuffer [x63; x64; x00; x61; x62] 5 3 2 false in
  exists bs,
    Bytes rb = Some (rb, bs)
    /\ len bs = Length rb
    /\ (forall i, 0 <= i < Length rb ->
          zget bs i = zget (buf rb) ((r rb + i) mod Capacity rb))
    /\ (IsEmpty rb = true -> bs = [])
    /\ (forall d, bs <> [] -> len d = len bs ->
          exists rb', Read rb d = Some (rb', bs, len bs, None)).
Proof.
  intros rb. apply (Bytes_snapshot rb). wf_concrete.
Defined.

(** ** Coincident cursors under the full flag *)

(** C10. In every state reached from [New] by public calls, whatever the
    capacity, a raised full flag means that the cursors coincide; hence the
    guard [w == r && isFull] of [WriteByte] and the guard [isFull] of [Write]
    have the same value. *)
Theorem full_flag_implies_coincident_cursors (rb : RingBuffer) :
  reachable rb ->
  (isFull rb = true -> r rb = w rb)
  /\ (w rb =? r rb) && isFull rb = isFull rb.
Proof.
  intros Hreach. pose proof (reachable_full rb Hreach) as Hinv.
  split.
  - intros F. symmetry. auto.
  - destruct (isFull rb).
    + rewrite (Hinv eq_refl), Z.eqb_refl. reflexivity.
    + apply andb_false_r.
Qed.

Lemma full_flag_implies_coincident_cursors_witness :
  let rb := mkRingBuffer [x61; x62] 2 0 0 true in
  (isFull rb = true -> r rb = w rb)
  /\ (w rb =? r rb) && isFull rb = isFull rb.
Proof.
  intros rb. apply (full_flag_implies_coincident_cursors rb).
  apply reach_step with (o := OpWrite [x61; x62])
                        (rb := mkRingBuffer [x00; x00] 2 0 0 false).
  - apply reach_New with (sz := 2). reflexivity.
  - vm_compute. reflexivity.
Defined.

(** * Further properties of the methods *)

(** ** Single-byte calls and bulk calls *)

Lemma RingBuffer_ext (a b : RingBuffer) :
  buf a = buf b -> size a = size b -> r a = r b -> w a = w b ->
  isFull a = isFull b -> a = b.
Proof.
  destruct a, b. cbn. intros. congruence.
Qed.

Lemma WriteByte_as_Write (rb : RingBuffer) (c : byte) :
  wf rb -> isFull rb = false ->
  exists rb',
    WriteByte rb c = Some (rb', None) /\ Write rb [c] = Some (rb', 1, None).
Proof.
  intros H F.
  assert (HFr : 0 < Free rb).
  { pose proof (proj2 (Length_wf rb H)). rewrite (Free_wf rb H).
    destruct (Z.eqb_spec (Length rb) (size rb)) as [E | E]; [| lia].
    exfalso. assert (E0 : Free rb = 0) by (rewrite (Free_wf rb H); lia).
    apply (isFull_Free rb H) in E0. congruence. }
  destruct (WriteByte_effect rb c H F)
    as (rb1 & HW1 & Hwf1 & Hsz1 & Hr1 & Hw1 & Hf1 & Hg1).
  destruct (Write_effect rb [c] H F) as (rb2 & HW2 & Hwf2 & Hsz2 & Hr2 & Hw2 & Hf2 & Hg2);
    [cbn; lia |].
  change (len [c]) with 1 in *.
  replace (Z.min 1 (Free rb)) with 1 in * by lia.
  replace (1 >? Free rb) with false in HW2
    by (symmetry; rewrite Z.gtb_ltb; apply Z.ltb_ge; lia).
  exists rb1. split; [assumption |].
  rewrite HW2. do 3 f_equal.
  apply RingBuffer_ext; try congruence.
  apply zget_ext.
  - rewrite (wf_buf rb2 Hwf2), (wf_buf rb1 Hwf1). congruence.
  - intros j Hj. rewrite (wf_buf rb2 Hwf2), Hsz2 in Hj.
    rewrite Hg1, Hg2 by assumption.
    destruct H. rewrite (mod_back (j - w rb) (size rb)) by lia.
    zcases; try lia; try reflexivity.
    replace (j - w rb) with 0 by lia. reflexivity.
Qed.

Lemma ReadByte_as_Read (rb : RingBuffer) :
  wf rb -> 0 < Length rb ->
  exists rb',
    ReadByte rb = Some (rb', zget (buf rb) (r rb), None)
    /\ forall d0, Read rb [d0] = Some (rb', [zget (buf rb) (r rb)], 1, None).
Proof.
  intros H HL.
  destruct (ReadByte_effect rb H HL) as (rb1 & HR1 & Hwf1 & Hb1 & Hsz1 & Hw1 & Hr1 & Hf1).
  exists rb1. split; [assumption |]. intros d0.
  destruct (Read_effect rb [d0] H HL)
    as (rb2 & p2 & HR2 & Hwf2 & Hb2 & Hsz2 & Hw2 & Hr2 & Hf2 & Hpl & Hpg); [cbn; lia |].
  change (len [d0]) with 1 in *.
  replace (Z.min (Length rb) 1) with 1 in * by lia.
  rewrite HR2. do 3 f_equal. f_equal.
  - apply RingBuffer_ext; congruence.
  - apply zget_ext; [assumption |].
    intros i Hi. rewrite Hpl in Hi. replace i with 0 by lia.
    rewrite Hpg by lia. cbn [Z.ltb Z.compare].
    rewrite Z.add_0_r, Z.mod_small by (destruct H; lia). reflexivity.
Qed.

(** X1. [WriteByte(c)] does what [Write] does on the one-byte slice [[c]]:
    the same buffer afterwards and the same error, [ErrIsFull] on a full
    buffer and none otherwise; [Write] then counts 1 byte, or 0 on the
    error. *)
Theorem WriteByte_is_Write_of_one_byte (rb : RingBuffer) (c : byte) :
  wf rb ->
  exists rb' e,
    WriteByte rb c = Some (rb', e)
    /\ Write rb [c] = Some (rb', match e with None => 1 | Some _ => 0 end, e)
    /\ (e = None \/ e = Some ErrIsFull).
Proof.
  intros H. destruct (isFull rb) eqn:F.
  - exists rb, (Some ErrIsFull). unfold WriteByte, Write.
    rewrite F, (wf_full rb H F), Z.eqb_refl. cbn. auto.
  - destruct (WriteByte_as_Write rb c H F) as (rb' & HWB & HW).
    exists rb', None. auto.
Qed.

Lemma WriteByte_is_Write_of_one_byte_witness :
  let rb := mkRingBuffer [x61; x62; x00] 3 0 2 false in
  exists rb' e,
    WriteByte rb x63 = Some (rb', e)
    /\ Write rb [x63] = Some (rb', match e with None => 1 | Some _ => 0 end, e)
    /\ (e = None \/ e = Some ErrIsFull).
Proof.
  intros rb. apply (WriteByte_is_Write_of_one_byte rb x63). wf_concrete.
Defined.

(** X2. [ReadByte()] does what [Read] does on a destination of length 1: the
    same buffer afterwards and the same error, [ErrIsEmpty] on an empty
    buffer and none otherwise; the byte returned is the byte [Read] stores in
    the destination, and on the error [Read] leaves the destination as it
    was. *)
Theorem ReadByte_is_Read_of_one_byte (rb : RingBuffer) (d0 : byte) :
  wf rb ->
  exists rb' b e,
    ReadByte rb = Some (rb', b, e)
    /\ Read rb [d0]
       = Some (rb', [match e with None => b | Some _ => d0 end],
               match e with None => 1 | Some _ => 0 end, e)
    /\ (e = None \/ e = Some ErrIsEmpty).
Proof.
  intros H. pose proof (proj2 (Length_wf rb H)) as HLr.
  destruct (Z.eqb_spec (Length rb) 0) as [E | E].
  - apply (IsEmpty_Length rb H) in E. unfold IsEmpty in E.
    exists rb, x00, (Some ErrIsEmpty). unfold ReadByte, Read.
    rewrite andb_comm, E. cbn. auto.
  - destruct (ReadByte_as_Read rb H) as (rb' & HRB & HR); [lia |].
    exists rb', (zget (buf rb) (r rb)), None. auto.
Qed.

Lemma ReadByte_is_Read_of_one_byte_witness :
  let rb := mkRingBuffer [x61; x62; x63] 3 2 1 false in
  exists rb' b e,
    ReadByte rb = Some (rb', b, e)
    /\ Read rb [x00]
       = Some (rb', [match e with None => b | Some _ => x00 end],
               match e with None => 1 | Some _ => 0 end, e)
    /\ (e = None \/ e = Some ErrIsEmpty).
Proof.
  intros rb. apply (ReadByte_is_Read_of_one_byte rb x00). wf_concrete.
Defined.

(** ** The buffer refines a bounded queue *)

Lemma Bytes_len (rb : RingBuffer) (q : list byte) :
  wf rb -> Bytes rb = Some (rb, q) -> len q = Length rb.
Proof.
  intros H HB. destruct (Bytes_effect rb H) as (bs & HB' & Hl & _).
  rewrite HB in HB'. inversion HB'. subst. assumption.
Qed.

Lemma isFull_Length (rb : RingBuffer) :
  wf rb -> isFull rb = (Length rb =? size rb).
Proof.
  intros H. pose proof (isFull_Free rb H) as HF. rewrite (Free_wf rb H) in HF.
  destruct (Z.eqb_spec (Length rb) (size rb)) as [E | E].
  - apply HF. lia.
  - destruct (isFull rb); [| reflexivity]. exfalso. apply E.
    assert (size rb - Length rb = 0) by (apply HF; reflexivity). lia.
Qed.

Lemma Write_simulates (rb : RingBuffer) (p q : list byte) :
  wf rb -> Bytes rb = Some (rb, q) ->
  exists rb' n e,
    Write rb p = Some (rb', n, e)
    /\ snd (queue_write (size rb) p q) = RetWrite n e
    /\ wf rb' /\ size rb' = size rb
    /\ Bytes rb' = Some (rb', fst (queue_write (size rb) p q)).
Proof.
  intros H HB. pose proof (Bytes_len rb q H HB) as Hq.
  pose proof (isFull_Length rb H) as HF.
  unfold queue_write. rewrite Hq, <- HF.
  destruct (Z.eqb_spec (len p) 0) as [E | E].
  - exists rb, 0, None. unfold Write. rewrite E. cbn. auto.
  - destruct (isFull rb) eqn:F.
    + exists rb, 0, (Some ErrIsFull). unfold Write.
      rewrite (proj2 (Z.eqb_neq _ _) E), F. cbn. auto.
    + pose proof (len_nonneg p).
      destruct (Write_Bytes rb p H F)
        as (rb' & bs & HW & Hwf' & Hsz & _ & _ & _ & _ & HB0 & HB'); [lia |].
      rewrite HB in HB0. inversion HB0; subst bs. clear HB0.
      rewrite (Free_wf rb H) in *. rewrite Z.gtb_ltb in HW.
      do 3 eexists. split; [exact HW |]. cbn [fst snd]. auto.
Qed.

(** One call of the buffer against one call of the queue. *)
Lemma call_simulates (o : op) (rb : RingBuffer) (q : list byte) :
  wf rb -> Bytes rb = Some (rb, q) ->
  exists rb',
    call o rb = Some (rb', snd (queue_call (size rb) o q))
    /\ wf rb' /\ size rb' = size rb
    /\ Bytes rb' = Some (rb', fst (queue_call (size rb) o q)).
Proof.
  intros H HB. pose proof (Bytes_len rb q H HB) as Hq.
  pose proof (proj2 (Length_wf rb H)) as HLr.
  pose proof (isFull_Length rb H) as HF.
  pose proof (IsEmpty_Length rb H) as HE. unfold IsEmpty in HE.
  destruct o; cbn [call queue_call].
  - (* Read *)
    destruct (Z.eqb_spec (len p) 0) as [E | E].
    { exists rb. unfold Read. rewrite E. cbn. auto. }
    destruct (Z.eqb_spec (len q) 0) as [E0 | E0].
    { exists rb. unfold Read. rewrite (proj2 (Z.eqb_neq _ _) E).
      rewrite andb_comm, (proj2 HE) by lia. cbn. auto. }
    pose proof (len_nonneg p).
    destruct (Read_Bytes rb p H) as (rb' & bs & HB0 & HR & Hwf' & _ & Hsz & _ & _ & _ & _ & HB');
      [lia | lia |].
    rewrite HB in HB0. inversion HB0; subst bs. clear HB0.
    exists rb'. rewrite HR, Hq. cbn. auto.
  - (* ReadByte *)
    destruct q as [| b q'].
    { exists rb. unfold ReadByte. rewrite andb_comm, (proj2 HE) by (cbn in Hq; lia).
      cbn. auto. }
    rewrite len_cons in Hq. pose proof (len_nonneg q').
    destruct (ReadByte_as_Read rb H) as (rb1 & HRB & HR1); [lia |].
    destruct (Read_Bytes rb [x00] H)
      as (rb' & bs & HB0 & HR & Hwf' & _ & Hsz & _ & _ & _ & _ & HB'); [lia | cbn; lia |].
    rewrite HB in HB0. inversion HB0; subst bs. clear HB0.
    change (len [x00]) with 1 in *.
    replace (Z.min (Length rb) 1) with 1 in * by lia.
    pose proof (eq_trans (eq_sym HR) (HR1 x00)) as HX.
    cbn in HX, HB'. inversion HX; subst.
    eexists. rewrite HRB. cbn. split; [reflexivity |]. auto.
  - (* Write *)
    destruct (Write_simulates rb p q H HB) as (rb' & n & e & HW & Hres & Hrest).
    exists rb'. rewrite HW, Hres. cbn. auto.
  - (* WriteByte *)
    rewrite Hq, <- HF. destruct (isFull rb) eqn:F.
    { exists rb. unfold WriteByte. rewrite F, (wf_full rb H F), Z.eqb_refl. cbn. auto. }
    destruct (WriteByte_as_Write rb c H F) as (rb1 & HWB & HW1).
    destruct (Write_Bytes rb [c] H F)
      as (rb' & bs & HW & Hwf' & Hsz & _ & _ & _ & _ & HB0 & HB'); [cbn; lia |].
    rewrite HB in HB0. inversion HB0; subst bs. clear HB0.
    assert (HFr : 0 < Free rb).
    { rewrite (Free_wf rb H). pose proof (isFull_Length rb H) as HF2.
      rewrite F in HF2. symmetry in HF2. apply Z.eqb_neq in HF2. lia. }
    change (len [c]) with 1 in *.
    replace (Z.min 1 (Free rb)) with 1 in * by lia.
    rewrite HW1 in HW. inversion HW; subst.
    exists rb'. rewrite HWB. cbn. auto.
  - (* WriteString *)
    unfold WriteString.
    destruct (Write_simulates rb (String.list_byte_of_string s) q H HB)
      as (rb' & n & e & HW & Hres & Hrest).
    exists rb'. rewrite HW, Hres. cbn. auto.
  - (* Bytes *)
    exists rb. rewrite HB. cbn. auto.
  - exists rb. rewrite Hq. auto.
  - exists rb. auto.
  - exists rb. rewrite Hq, (Free_wf rb H). auto.
  - exists rb. unfold IsFull. rewrite Hq, HF. auto.
  - exists rb. rewrite Hq. unfold IsEmpty.
    destruct (Z.eqb_spec (Length rb) 0) as [E | E].
    + rewrite (proj2 HE E). auto.
    + destruct (negb (isFull rb) && (w rb =? r rb)) eqn:X; [| auto].
      exfalso. apply E, HE. reflexivity.
  - (* Reset *)
    assert (Hwf' : wf (Reset rb)).
    { destruct H. constructor; cbn; auto; try lia. }
    exists (Reset rb). repeat (split; [auto |]).
    apply Bytes_empty; [assumption | reflexivity].
Qed.

Lemma trace_simulates (os : list op) :
  forall (rb : RingBuffer) (q : list byte),
    wf rb -> Bytes rb = Some (rb, q) ->
    trace os rb = Some (queue_trace (size rb) os q).
Proof.
  induction os as [| o os IH]; intros rb q H HB; [reflexivity |].
  cbn [trace queue_trace].
  destruct (call_simulates o rb q H HB) as (rb' & HC & Hwf' & Hsz & HB').
  rewrite HC. cbn [bind].
  destruct (queue_call (size rb) o q) as [q' res]. cbn [fst snd] in *.
  rewrite (IH rb' q' Hwf' HB'), Hsz. reflexivity.
Qed.

Lemma New_wf (sz : Z) (rb : RingBuffer) :
  0 < sz <= max_cap -> New sz = Some rb -> wf rb.
Proof.
  intros Hsz HN. destruct (New_fresh sz rb HN) as (F & Hr & Hw & Hs & Hb & _).
  constructor; try lia; rewrite F; discriminate.
Qed.

(** X10. For every capacity in [(0, max_cap]] and every sequence of public
    calls on a new buffer, no call panics and the calls return, one by one,
    what a bounded first-in first-out queue of that capacity returns: the
    same counts, errors, bytes delivered, and answers to [Length], [Free],
    [Capacity], [IsFull], [IsEmpty] and [Bytes]. *)
Theorem trace_refines_queue (sz : Z) (os : list op) :
  0 < sz <= max_cap ->
  exists rb0,
    New sz = Some rb0 /\ trace os rb0 = Some (queue_trace sz os []).
Proof.
  intros Hsz.
  destruct (New sz) as [rb0 |] eqn:HN.
  2: { unfold New, make in HN. destruct (Z.ltb_spec sz 0); [lia | discriminate]. }
  exists rb0. split; [reflexivity |].
  pose proof (New_wf sz rb0 Hsz HN) as H.
  destruct (New_fresh sz rb0 HN) as (F & Hr & Hw & Hs & _).
  rewrite <- Hs. apply trace_simulates; [assumption |].
  apply Bytes_empty; [assumption |].
  unfold Length. rewrite Hw, Hr, F. reflexivity.
Qed.

Lemma trace_refines_queue_witness :
  let os := [OpWrite [x61; x62; x63]; OpRead [x00; x00];
             OpWriteString (String.string_of_list_byte [x64; x65; x66; x67]);
             OpBytes; OpIsFull; OpReadByte; OpReset; OpWriteByte x7a; OpLength] in
  exists rb0,
    New 4 = Some rb0 /\ trace os rb0 = Some (queue_trace 4 os []).
Proof.
  intros os. apply (trace_refines_queue 4 os). unfold max_cap. lia.
Defined.

(** ** Queries *)

(** X5. On a well-formed buffer the queries agree with each other:
    [Length] lies between 0 and [Capacity], [Free] is the rest, [IsEmpty]
    holds exactly when [Length] is 0 and [IsFull] exactly when [Length] is
    [Capacity]; a buffer is never both empty and full. *)
Theorem queries_agree (rb : RingBuffer) :
  wf rb ->
  0 <= Length rb <= Capacity rb
  /\ Free rb = Capacity rb - Length rb
  /\ (IsEmpty rb = true <-> Length rb = 0)
  /\ (IsFull rb = true <-> Length rb = Capacity rb)
  /\ (IsEmpty rb = true -> IsFull rb = false).
Proof.
  intros H. pose proof (proj2 (Length_wf rb H)) as HLr.
  pose proof (isFull_Length rb H) as HF.
  pose proof (IsEmpty_Length rb H) as HE.
  unfold Capacity, IsFull.
  split; [assumption |]. split; [apply Free_wf; assumption |].
  split; [assumption |]. split.
  - rewrite HF. apply Z.eqb_eq.
  - intros E. apply HE in E. rewrite HF. apply Z.eqb_neq. destruct H. lia.
Qed.

Lemma queries_agree_witness :
  let rb := mkRingBuffer [x63; x00; x61; x62] 4 2 1 false in
  0 <= Length rb <= Capacity rb
  /\ Free rb = Capacity rb - Length rb
  /\ (IsEmpty rb = true <-> Length rb = 0)
  /\ (IsFull rb = true <-> Length rb = Capacity rb)
  /\ (IsEmpty rb = true -> IsFull rb = false).
Proof.
  intros rb. apply (queries_agree rb). wf_concrete.
Defined.

(** ** Counts and errors of the bulk calls *)

(** X6. For every input, empty or not, and every well-formed buffer, full or
    not, [Write] returns a count [n = min (len p) (Free rb)] and an error that
    is [nil] exactly when [n = len p] (the contract stated above the method);
    [Length] grows by [n], [Free] shrinks by [n], the buffer is full afterwards
    exactly when the input was at least as long as the free space, and the
    read cursor does not move. *)
Theorem Write_count_and_error (rb : RingBuffer) (p : list byte) :
  wf rb ->
  exists rb' n e,
    Write rb p = Some (rb', n, e)
    /\ n = Z.min (len p) (Free rb)
    /\ (e = None <-> n = len p)
    /\ Length rb' = Length rb + n
    /\ Free rb' = Free rb - n
    /\ (IsFull rb' = true <-> Free rb <= len p)
    /\ r rb' = r rb.
Proof.
  intros H. pose proof (proj2 (Length_wf rb H)) as HLr.
  assert (Hfull : forall rb' n, wf rb' -> size rb' = size rb ->
             n = Z.min (len p) (Free rb) -> Length rb' = Length rb + n ->
             (IsFull rb' = true <-> Free rb <= len p)).
  { intros rb' n Hwf' Hsz Hn HL'. unfold IsFull.
    rewrite (isFull_Length rb' Hwf'), Hsz, HL', Z.eqb_eq.
    pose proof (Free_wf rb H). lia. }
  pose proof (Free_wf rb H) as HFr. pose proof (len_nonneg p) as Hp.
  destruct (Z.eqb_spec (len p) 0) as [E | E].
  - exists rb, 0, None. unfold Write. rewrite (proj2 (Z.eqb_eq _ _) E).
    split; [reflexivity |]. split; [lia |]. split; [split; intros; [lia | reflexivity] |].
    split; [lia |]. split; [lia |].
    split; [apply (Hfull rb 0); [assumption | reflexivity | lia | lia] | reflexivity].
  - destruct (isFull rb) eqn:F.
    + assert (E0 : Free rb = 0) by (apply (isFull_Free rb H); assumption).
      exists rb, 0, (Some ErrIsFull). unfold Write.
      rewrite (proj2 (Z.eqb_neq _ _) E), F.
      split; [reflexivity |]. split; [lia |].
      split; [split; intros; [discriminate | lia] |].
      split; [lia |]. split; [lia |].
      split; [apply (Hfull rb 0); [assumption | reflexivity | lia | lia] | reflexivity].
    + destruct (Write_Bytes rb p H F)
        as (rb' & bs & HW & Hwf' & Hsz & Hr' & _ & _ & HL' & _); [lia |].
      do 3 eexists. split; [exact HW |].
      split; [reflexivity |]. split.
      * rewrite Z.gtb_ltb. destruct (Z.ltb_spec (Free rb) (len p));
          split; intros; try lia; try discriminate; reflexivity.
      * split; [assumption |].
        split; [rewrite (Free_wf rb' Hwf'), Hsz, HL'; lia |].
        split; [| assumption].
        apply (Hfull rb' (Z.min (len p) (Free rb))); auto.
Qed.

Lemma Write_count_and_error_witness :
  let rb := mkRingBuffer [x00; x61; x62; x00] 4 1 3 false in
  let p := [x63; x64; x65] in
  exists rb' n e,
    Write rb p = Some (rb', n, e)
    /\ n = Z.min (len p) (Free rb)
    /\ (e = None <-> n = len p)
    /\ Length rb' = Length rb + n
    /\ Free rb' = Free rb - n
    /\ (IsFull rb' = true <-> Free rb <= len p)
    /\ r rb' = r rb.
Proof.
  intros rb p. apply (Write_count_and_error rb p). wf_concrete.
Defined.

(** X7. A [Read] into a destination that has room for all the unread bytes
    of a non-empty buffer delivers all of them, in order, in front of the
    untouched rest of the destination, and leaves the buffer empty: the
    cursors meet and the full flag is down. *)
Theorem Read_drains (rb : RingBuffer) (d : list byte) :
  wf rb -> IsEmpty rb = false -> Length rb <= len d ->
  exists rb' bs,
    Bytes rb = Some (rb, bs)
    /\ Read rb d = Some (rb', bs ++ skipn (Z.to_nat (Length rb)) d, Length rb, None)
    /\ IsEmpty rb' = true /\ r rb' = w rb' /\ IsFull rb' = false
    /\ Bytes rb' = Some (rb', []).
Proof.
  intros H HE Hd. pose proof (proj2 (Length_wf rb H)) as HLr.
  assert (HL : 0 < Length rb).
  { destruct (Z.eqb_spec (Length rb) 0) as [E | E]; [| lia].
    apply (IsEmpty_Length rb H) in E. congruence. }
  destruct (Read_Bytes rb d H HL)
    as (rb' & bs & HB & HR & Hwf' & _ & _ & Hw' & Hr' & Hf' & HL' & HB'); [lia |].
  pose proof (Bytes_len rb bs H HB) as Hbl.
  replace (Z.min (Length rb) (len d)) with (Length rb) in * by lia.
  rewrite firstn_all2 in HR by (unfold len in *; lia).
  rewrite skipn_all2 in HB' by (unfold len in *; lia).
  assert (HE' : IsEmpty rb' = true) by (apply (IsEmpty_Length rb' Hwf'); lia).
  exists rb', bs. unfold IsFull. repeat (split; [assumption |]).
  split; [| split; assumption].
  unfold IsEmpty in HE'. rewrite Hf' in HE'. cbn in HE'.
  apply Z.eqb_eq in HE'. congruence.
Qed.

Lemma Read_drains_witness :
  let rb := mkRingBuffer [x63; x64; x61; x62] 4 2 2 true in
  let d := [x00; x00; x00; x00; x00] in
  exists rb' bs,
    Bytes rb = Some (rb, bs)
    /\ Read rb d = Some (rb', bs ++ skipn (Z.to_nat (Length rb)) d, Length rb, None)
    /\ IsEmpty rb' = true /\ r rb' = w rb' /\ IsFull rb' = false
    /\ Bytes rb' = Some (rb', []).
Proof.
  intros rb d.
  apply (Read_drains rb d); [wf_concrete | reflexivity | cbn; lia].
Defined.

(** ** Text input *)

Lemma len_list_byte_of_string (s : String.string) :
  len (String.list_byte_of_string s) = Z.of_nat (String.length s).
Proof.
  unfold len, String.list_byte_of_string. rewrite length_map. f_equal.
  induction s as [| a s IH]; cbn; [reflexivity | f_equal; assumption].
Qed.

(** X3. [WriteString] on an empty buffer whose capacity is at least the
    length of the text accepts the whole text without error, and the bytes
    [Bytes] then returns, read back as a string, are the text. *)
Theorem WriteString_roundtrip (rb : RingBuffer) (s : String.string) :
  wf rb -> IsEmpty rb = true -> Z.of_nat (String.length s) <= Capacity rb ->
  exists rb' bs,
    WriteString rb s = Some (rb', Z.of_nat (String.length s), None)
    /\ Bytes rb' = Some (rb', bs)
    /\ String.string_of_list_byte bs = s.
Proof.
  intros H HE Hcap. unfold Capacity in Hcap. unfold WriteString.
  pose proof (len_list_byte_of_string s) as Hlen.
  pose proof (proj1 (IsEmpty_Length rb H) HE) as HL.
  set (p := String.list_byte_of_string s) in *.
  assert (Hs : String.string_of_list_byte p = s)
    by apply String.string_of_list_byte_of_string.
  destruct (Z.eqb_spec (len p) 0) as [E | E].
  - exists rb, []. unfold Write. rewrite E. cbn [Z.eqb].
    split; [do 3 f_equal; lia |]. split; [apply Bytes_empty; assumption |].
    rewrite <- Hs, (len_nil_inv p E). reflexivity.
  - assert (F : isFull rb = false).
    { unfold IsEmpty in HE. destruct (isFull rb); [discriminate | reflexivity]. }
    pose proof (len_nonneg p).
    pose proof (Free_wf rb H) as HF. rewrite HL in HF.
    destruct (Write_Bytes rb p H F)
      as (rb' & bs & HW & _ & _ & _ & _ & _ & _ & HB & HB'); [lia |].
    rewrite (Bytes_empty rb H HL) in HB. inversion HB; subst bs. clear HB.
    replace (Z.min (len p) (Free rb)) with (len p) in * by lia.
    replace (len p >? Free rb) with false in HW
      by (symmetry; rewrite Z.gtb_ltb; apply Z.ltb_ge; lia).
    rewrite firstn_all2 in HB' by (unfold len; lia). cbn [app] in HB'.
    exists rb', p. rewrite <- Hlen. auto.
Qed.

Lemma WriteString_roundtrip_witness :
  let rb := mkRingBuffer [x00; x00; x00; x00] 4 3 3 false in
  let s := String.string_of_list_byte [x61; x62; x63] in
  exists rb' bs,
    WriteString rb s = Some (rb', Z.of_nat (String.length s), None)
    /\ Bytes rb' = Some (rb', bs)
    /\ String.string_of_list_byte bs = s.
Proof.
  intros rb s.
  apply (WriteString_roundtrip rb s); [wf_concrete | reflexivity | cbn; lia].
Defined.

(** ** Reset *)

Lemma firstn_min_len (c : Z) (p : list byte) :
  0 <= c -> firstn (Z.to_nat (Z.min (len p) c)) p = firstn (Z.to_nat c) p.
Proof.
  intros Hc. destruct (Z.leb_spec (len p) c).
  - rewrite !firstn_all2 by (unfold len in *; lia). reflexivity.
  - f_equal. lia.
Qed.

(** X4. [Reset] keeps the storage and the capacity and leaves a well-formed
    empty buffer: [Length] is 0, [Free] is the capacity, [Bytes] returns the
    empty slice and a [Read] reports [ErrIsEmpty]; nothing of the former
    content comes back: after a following [Write(p)] the unread bytes are the
    first [Capacity] bytes of [p] and nothing else. *)
Theorem Reset_discards (rb : RingBuffer) :
  wf rb ->
  wf (Reset rb)
  /\ buf (Reset rb) = buf rb /\ Capacity (Reset rb) = Capacity rb
  /\ Length (Reset rb) = 0 /\ Free (Reset rb) = Capacity rb
  /\ IsEmpty (Reset rb) = true /\ IsFull (Reset rb) = false
  /\ Bytes (Reset rb) = Some (Reset rb, [])
  /\ (forall d, d <> [] -> Read (Reset rb) d = Some (Reset rb, d, 0, Some ErrIsEmpty))
  /\ (forall p, exists rb' e,
        Write (Reset rb) p = Some (rb', Z.min (len p) (Capacity rb), e)
        /\ Bytes rb' = Some (rb', firstn (Z.to_nat (Capacity rb)) p)).
Proof.
  intros H.
  assert (Hwf : wf (Reset rb)).
  { destruct H. constructor; cbn; auto; try lia. }
  assert (HL : Length (Reset rb) = 0) by reflexivity.
  assert (HB : Bytes (Reset rb) = Some (Reset rb, [])) by (apply Bytes_empty; assumption).
  pose proof (Free_wf (Reset rb) Hwf) as HF. rewrite HL in HF.
  change (size (Reset rb)) with (size rb) in HF.
  unfold Capacity.
  repeat (split; [first [assumption | reflexivity | lia] |]).
  split.
  - intros d Hd. apply len_pos in Hd. unfold Read.
    rewrite (proj2 (Z.eqb_neq (len d) 0)) by lia. reflexivity.
  - intros p. pose proof (len_nonneg p).
    destruct (Z.eqb_spec (len p) 0) as [E | E].
    + exists (Reset rb), None. unfold Write. rewrite E. cbn [Z.eqb].
      split; [do 3 f_equal; destruct H; lia |].
      rewrite (len_nil_inv p E), firstn_nil. assumption.
    + destruct (Write_Bytes (Reset rb) p Hwf eq_refl)
        as (rb' & bs & HW & _ & _ & _ & _ & _ & _ & HB0 & HB'); [lia |].
      rewrite HB in HB0. inversion HB0; subst bs. clear HB0.
      rewrite HF, Z.sub_0_r in *. cbn [app] in HB'.
      rewrite firstn_min_len in HB' by (destruct H; lia).
      do 2 eexists. split; [exact HW | exact HB'].
Qed.

Lemma Reset_discards_witness :
  let rb := mkRingBuffer [x63; x64; x61; x62] 4 2 2 true in
  wf (Reset rb)
  /\ buf (Reset rb) = buf rb /\ Capacity (Reset rb) = Capacity rb
  /\ Length (Reset rb) = 0 /\ Free (Reset rb) = Capacity rb
  /\ IsEmpty (Reset rb) = true /\ IsFull (Reset rb) = false
  /\ Bytes (Reset rb) = Some (Reset rb, [])
  /\ (forall d, d <> [] -> Read (Reset rb) d = Some (Reset rb, d, 0, Some ErrIsEmpty))
  /\ (forall p, exists rb' e,
        Write (Reset rb) p = Some (rb', Z.min (len p) (Capacity rb), e)
        /\ Bytes rb' = Some (rb', firstn (Z.to_nat (Capacity rb)) p)).
Proof.
  intros rb. apply (Reset_discards rb). wf_concrete.
Defined.

(** ** The storage is never resized *)

Lemma copy_at_len (dst : list byte) (off : Z) (src d : list byte) :
  copy_at dst off src = Some d -> len d = len dst.
Proof.
  intros Hc.
  assert (Hoff : 0 <= off <= len dst).
  { unfold copy_at, slice in Hc.
    destruct (Z.leb_spec 0 off); destruct (Z.leb_spec off (len dst));
      cbn in Hc; try discriminate; lia. }
  destruct (copy_at_ok dst off src Hoff) as (d' & Hc' & Hl & _). congruence.
Qed.

Lemma store_len (s : list byte) (i : Z) (c : byte) (d : list byte) :
  store s i c = Some d -> len d = len s.
Proof.
  intros Hs.
  assert (Hi : 0 <= i < len s).
  { unfold store in Hs.
    destruct (Z.leb_spec 0 i); destruct (Z.ltb_spec i (len s));
      cbn in Hs; try discriminate; lia. }
  destruct (store_ok s i c Hi) as (d' & Hs' & Hl & _). congruence.
Qed.

Lemma step_buf_len (o : op) (rb rb' : RingBuffer) :
  step o rb = Some rb' -> len (buf rb') = len (buf rb).
Proof.
  destruct o; cbn [step]; unfold WriteString, Read, ReadByte, Write, WriteByte, Bytes, Reset;
    intros H; break_step;
    repeat match goal with
           | H : copy_at _ _ _ = Some _ |- _ => apply copy_at_len in H
           | H : store _ _ _ = Some _ |- _ => apply store_len in H
           end;
    congruence.
Qed.

Lemma run_size_buf (os : list op) :
  forall rb0 rb,
    run os rb0 = Some rb -> size rb = size rb0 /\ len (buf rb) = len (buf rb0).
Proof.
  induction os as [| o os IH]; intros rb0 rb Hrun; cbn [run] in Hrun.
  - inversion Hrun; subst. auto.
  - destruct (step o rb0) as [rb1 |] eqn:Hstep; cbn [bind] in Hrun; [| discriminate].
    destruct (IH rb1 rb Hrun) as [Hs Hb].
    rewrite Hs, Hb, (step_size o rb0 rb1 Hstep), (step_buf_len o rb0 rb1 Hstep). auto.
Qed.

(** X8. Whatever the capacity given to [New] and whatever calls follow, the
    capacity and the length of the storage stay what [New] made them: no call
    resizes or replaces the storage. *)
Theorem capacity_is_constant (sz : Z) (os : list op) (rb0 rb : RingBuffer) :
  New sz = Some rb0 -> run os rb0 = Some rb ->
  Capacity rb = sz /\ len (buf rb) = sz.
Proof.
  intros HN Hrun. destruct (New_fresh sz rb0 HN) as (_ & _ & _ & Hs & Hb & _).
  destruct (run_size_buf os rb0 rb Hrun) as [Hs' Hb'].
  unfold Capacity. split; congruence.
Qed.

Lemma capacity_is_constant_witness :
  let os := [OpWrite [x61; x62; x63; x64]; OpReadByte; OpWriteByte x65; OpReset] in
  let rb0 := mkRingBuffer [x00; x00; x00] 3 0 0 false in
  let rb := mkRingBuffer [x65; x62; x63] 3 0 0 false in
  Capacity rb = 3 /\ len (buf rb) = 3.
Proof.
  intros os rb0 rb.
  apply (capacity_is_constant 3 os rb0 rb); vm_compute; reflexivity.
Defined.

(** ** A buffer of capacity 0 *)

(** X9. [New(0)] returns a buffer on which no byte can ever be stored or
    read, and on which calls panic.  On the new buffer [WriteByte] panics
    (index out of range) and [Read] reports [ErrIsEmpty]; a [Write] of a
    non-empty input accepts 0 bytes with [ErrTooManyDataToWrite] and raises
    the full flag; from then on [Write] reports [ErrIsFull], while [Read]
    panics (division by zero in the cursor update) and [ReadByte] panics
    (index out of range). *)
Theorem zero_capacity_buffer (p d : list byte) (c : byte) :
  p <> [] -> d <> [] ->
  exists rb0 rb1,
    New 0 = Some rb0
    /\ Read rb0 d = Some (rb0, d, 0, Some ErrIsEmpty)
    /\ WriteByte rb0 c = None
    /\ Write rb0 p = Some (rb1, 0, Some ErrTooManyDataToWrite)
    /\ IsFull rb1 = true /\ Length rb1 = 0 /\ Free rb1 = 0
    /\ Write rb1 p = Some (rb1, 0, Some ErrIsFull)
    /\ Read rb1 d = None
    /\ ReadByte rb1 = None.
Proof.
  intros Hp Hd.
  destruct p as [| x p]; [congruence |]. destruct d as [| y d]; [congruence |].
  exists (mkRingBuffer [] 0 0 0 false), (mkRingBuffer [] 0 0 0 true).
  repeat split; vm_compute; reflexivity.
Qed.

Lemma zero_capacity_buffer_witness :
  exists rb0 rb1,
    New 0 = Some rb0
    /\ Read rb0 [x00] = Some (rb0, [x00], 0, Some ErrIsEmpty)
    /\ WriteByte rb0 x61 = None
    /\ Write rb0 [x61; x62] = Some (rb1, 0, Some ErrTooManyDataToWrite)
    /\ IsFull rb1 = true /\ Length rb1 = 0 /\ Free rb1 = 0
    /\ Write rb1 [x61; x62] = Some (rb1, 0, Some ErrIsFull)
    /\ Read rb1 [x00] = None
    /\ ReadByte rb1 = None.
Proof.
  apply (zero_capacity_buffer [x61; x62] [x00] x61); discriminate.
Defined.
